(** * Scheduler policy engine (policy.cc): a shallow embedding and its properties

    The policy keeps two arrays of four task queues (CPU and IO) and a
    logical clock.  Each call folds a batch of events into the queues and
    then runs a level-by-level selection and migration pass.  Task scores
    are C++ [double]s; they are modelled here with the IEEE 754 binary64
    specification of the standard library ([SpecFloat]), so that score
    comparisons are the ones the machine performs. *)

From Stdlib Require Import ZArith Lia SpecFloat.
From stdpp Require Import base list.

(** ** Binary64 arithmetic as used by the score computation *)

Module Binary64.
Local Open Scope Z_scope.

Definition prec : Z := 53.
Definition emax : Z := 1024.

(** Conversion of a C++ [int] to [double] (exact for every 32-bit value). *)
Definition of_int (d : Z) : spec_float := binary_normalize prec emax d 0 false.

Definition mul : spec_float -> spec_float -> spec_float := SFmul prec emax.
Definition add : spec_float -> spec_float -> spec_float := SFadd prec emax.
Definition ltb : spec_float -> spec_float -> bool := SFltb.

(** [std::numeric_limits<double>::max()]. *)
Definition DBL_MAX : spec_float := SFmax_float prec emax.

(** A finite float in normal form: full 53-bit mantissa, exponent in range. *)
Definition normal (m : positive) (e : Z) : Prop :=
  Zpos (digits2_pos m) = prec /\ -1074 <= e <= 971.

(** Canonical values met by the scheduler: zeros and normal numbers. *)
Definition canonical (x : spec_float) : Prop :=
  match x with
  | S754_zero _ => True
  | S754_finite _ m e => normal m e
  | _ => False
  end.

(** The value of a canonical float, scaled by [2^1074] so that it is an
    integer. *)
Definition sval (x : spec_float) : Z :=
  match x with
  | S754_finite s m e => (if s then -1 else 1) * (Zpos m * 2 ^ (e + 1074))
  | _ => 0
  end.

End Binary64.

(** ** Data model

    The header policy.h, which declares [Event], [Event::Task] and
    [Action], is not among the sources.  The declarations below follow the
    specification and the way policy.cc uses the types. *)

Module Priority.
(** Modelled from the spec: [Event::Task::Priority], declared in the
    missing policy.h.  policy.cc names [kHigh]; [kLow] is the spec's Low. *)
Inductive t : Set := kHigh | kLow.
End Priority.

Module Status.
(** Modelled from the spec: [Event::Task::Status], declared in the missing
    policy.h.  policy.cc names [kIoEnd] (the spec's JustFinishedIO);
    [kNormal] is the spec's Normal. *)
Inductive t : Set := kNormal | kIoEnd.
End Status.

Module EventType.
(** Modelled from the spec: [Event::Type], declared in the missing
    policy.h, with the five enumerators of the switch in [policy]. *)
Inductive t : Set := kTimer | kTaskArrival | kTaskFinish | kIoRequest | kIoEnd.
End EventType.

(** Modelled from the spec: [Event::Task], declared in the missing
    policy.h, with the four fields the specification lists (policy.cc reads
    all four and writes [status]). *)
Record Task : Set := mkTask {
  taskId : Z;
  priority : Priority.t;
  deadline : Z;
  status : Status.t
}.

(** Modelled from the spec: [Event], declared in the missing policy.h. *)
Record Event : Set := mkEvent {
  time : Z;
  type : EventType.t;
  task : Task
}.

(** Modelled from the spec: [Action], declared in the missing policy.h. *)
Record Action : Set := mkAction {
  cpuTask : Z;
  ioTask : Z
}.

(** An array [std::vector<Event::Task> queues[4]]: a list of levels, each
    level a list of tasks in insertion order.  The code only indexes it
    with levels [0..3]; an index outside the array is undefined behaviour
    in C++ (here: reads give the empty vector, writes do nothing). *)
Abbreviation Queues := (list (list Task)).

(** The three globals of policy.cc. *)
Record State : Type := mkState {
  g_currentTime : Z;
  g_cpuTaskQueues : Queues;
  g_ioTaskQueues : Queues
}.

(** ** Constants (namespace SchedulerConstants) *)

Definition NUM_PRIORITY_QUEUES : nat := 4.
(** [0.4], that is the binary64 number [0x1.999999999999ap-2]. *)
Definition IO_END_PRIORITY_BOOST_FACTOR : spec_float :=
  S754_finite false 7205759403792794 (-54).
(** [1.0] *)
Definition REGULAR_TASK_PRIORITY_FACTOR : spec_float :=
  S754_finite false 4503599627370496 (-52).
(** [1e5] *)
Definition OVERDUE_PENALTY_SCORE : spec_float :=
  S754_finite false 6871947673600000 (-36).
Definition IDLE_TASK_ID : Z := 0.

(** The state before the first call: clock 0, all eight levels empty. *)
Definition initial_state : State :=
  mkState 0 (replicate NUM_PRIORITY_QUEUES []) (replicate NUM_PRIORITY_QUEUES []).

(** ** 32-bit [int] arithmetic *)

Definition INT_MIN : Z := - 2 ^ 31.
Definition INT_MAX : Z := 2 ^ 31 - 1.
Definition int_range (z : Z) : Prop := (INT_MIN <= z <= INT_MAX)%Z.

(** Two's complement wrap-around.  Signed overflow is undefined in C++;
    the usual machine behaviour is written out, and the theorems about the
    value of a score assume that the subtraction does not overflow. *)
Definition int_wrap (z : Z) : Z := ((z + 2 ^ 31) mod 2 ^ 32 - 2 ^ 31)%Z.
Definition int_sub (a b : Z) : Z := int_wrap (a - b).

(** ** removeTaskFromQueues *)

(** [v.erase(std::remove_if(v.begin(), v.end(), id match), v.end())] *)
Definition erase_id (id : Z) (v : list Task) : list Task :=
  filter (fun t => taskId t <> id) v.

(** [queues[level].push_back(t)] *)
Definition push_back (queues : Queues) (level : nat) (t : Task) : Queues :=
  <[level := (queues !!! level) ++ [t]]> queues.

Definition removeTaskFromQueues (queues : Queues) (id : Z) : Queues :=
  foldl (fun qs i => <[i := erase_id id (qs !!! i)]> qs)
        queues (seq 0 NUM_PRIORITY_QUEUES).

(** ** selectAndMigrateTask *)

(** The score of one task, as computed inside the scan loop. *)
Definition score (t : Task) (currentTime : Z) : spec_float :=
  if (currentTime <? deadline t)%Z then
    match status t with
    | Status.kIoEnd =>
        Binary64.mul IO_END_PRIORITY_BOOST_FACTOR
          (Binary64.of_int (int_sub (deadline t) currentTime))
    | _ =>
        Binary64.mul REGULAR_TASK_PRIORITY_FACTOR
          (Binary64.of_int (int_sub (deadline t) currentTime))
    end
  else
    Binary64.add OVERDUE_PENALTY_SCORE
      (Binary64.of_int (int_sub (deadline t) currentTime)).

(** One iteration of the scan: the pair is ([selectedTask], [minScore]). *)
Definition scan_step (currentTime : Z)
    (acc : option Task * spec_float) (t : Task) : option Task * spec_float :=
  let s := score t currentTime in
  if Binary64.ltb s acc.2 then (Some t, s) else acc.

Definition scan_level (currentTime : Z) (v : list Task) : option Task * spec_float :=
  foldl (scan_step currentTime) (None, Binary64.DBL_MAX) v.

(** Returns the selected task and the array after the migration. *)
Definition selectAndMigrateTask (taskQueues : Queues) (fromLevel toLevel : nat)
    (currentTime : Z) : option Task * Queues :=
  match (scan_level currentTime (taskQueues !!! fromLevel)).1 with
  | Some sel =>
      let erased :=
        <[fromLevel := erase_id (taskId sel) (taskQueues !!! fromLevel)]> taskQueues in
      (Some sel, push_back erased toLevel sel)
  | None => (None, taskQueues)
  end.

(** ** policy *)

(** [(priority == kHigh) ? 0 : 2] *)
Definition entry_level (p : Priority.t) : nat :=
  match p with Priority.kHigh => 0 | _ => 2 end.

Definition with_status (t : Task) (s : Status.t) : Task :=
  mkTask (taskId t) (priority t) (deadline t) s.

(** Step 1, the body of the loop over the events. *)
Definition fold_event (st : State) (event : Event) : State :=
  let now := time event in
  let currentEventTask := task event in
  let cpu := g_cpuTaskQueues st in
  let io := g_ioTaskQueues st in
  match type event with
  | EventType.kTaskArrival =>
      mkState now
        (push_back cpu (entry_level (priority currentEventTask)) currentEventTask) io
  | EventType.kIoRequest =>
      mkState now
        (removeTaskFromQueues cpu (taskId currentEventTask))
        (push_back io (entry_level (priority currentEventTask)) currentEventTask)
  | EventType.kIoEnd =>
      let io' := removeTaskFromQueues io (taskId currentEventTask) in
      let ended := with_status currentEventTask Status.kIoEnd in
      mkState now (push_back cpu (entry_level (priority ended)) ended) io'
  | EventType.kTaskFinish =>
      mkState now (removeTaskFromQueues cpu (taskId currentEventTask)) io
  | EventType.kTimer => mkState now cpu io
  end.

Definition fold_events (st : State) (events : list Event) : State :=
  foldl fold_event st events.

(** [(i == NUM_PRIORITY_QUEUES - 1) ? 0 : i + 1] *)
Definition next_level (i : nat) : nat :=
  if Nat.eqb i (NUM_PRIORITY_QUEUES - 1) then 0 else i + 1.

(** Steps 2 and 3: the loop over the levels, left at the first level that
    yields a task.  Returns the id of the chosen task, if any. *)
Fixpoint select_pass (queues : Queues) (levels : list nat) (currentTime : Z)
    : option Z * Queues :=
  match levels with
  | [] => (None, queues)
  | i :: rest =>
      match selectAndMigrateTask queues i (next_level i) currentTime with
      | (Some chosen, queues') => (Some (taskId chosen), queues')
      | (None, queues') => select_pass queues' rest currentTime
      end
  end.

Definition all_levels : list nat := seq 0 NUM_PRIORITY_QUEUES.

Definition policy (events : list Event) (currentCpuTask currentIoTask : Z)
    (st : State) : Action * State :=
  let st1 := fold_events st events in
  let now := g_currentTime st1 in
  let '(chosenCpuTask, cpu') := select_pass (g_cpuTaskQueues st1) all_levels now in
  let '(chosenIoTask, io') :=
    if Z.eqb currentIoTask IDLE_TASK_ID
    then select_pass (g_ioTaskQueues st1) all_levels now
    else (None, g_ioTaskQueues st1) in
  (mkAction (default currentCpuTask chosenCpuTask) (default currentIoTask chosenIoTask),
   mkState now cpu' io').

(** ** Predicates used by the statements *)

(** The array has its four levels. *)
Definition wf_queues (queues : Queues) : Prop := length queues = NUM_PRIORITY_QUEUES.

Definition wf_state (st : State) : Prop :=
  wf_queues (g_cpuTaskQueues st) /\ wf_queues (g_ioTaskQueues st).

(** All task ids queued in an array, level after level. *)
Definition queued_ids (queues : Queues) : list Z := taskId <$> mjoin queues.

(** A task id appears at most once over both arrays. *)
Definition unique_ids (st : State) : Prop :=
  NoDup (queued_ids (g_cpuTaskQueues st) ++ queued_ids (g_ioTaskQueues st)).

(** [t] is the first task of [v] with the minimal score: the tasks before
    it score strictly higher, the tasks after it do not score lower. *)
Definition first_minimal (currentTime : Z) (v : list Task) (t : Task) : Prop :=
  exists pre post, v = pre ++ t :: post /\
    (forall u, u ∈ pre ->
       Binary64.ltb (score t currentTime) (score u currentTime) = true) /\
    (forall u, u ∈ post ->
       Binary64.ltb (score u currentTime) (score t currentTime) = false).

(** The invariant of the scan loop after the tasks [seen]. *)
Definition scan_inv (currentTime : Z) (seen : list Task)
    (acc : option Task * spec_float) : Prop :=
  match acc.1 with
  | None => seen = [] /\ acc.2 = Binary64.DBL_MAX
  | Some t => acc.2 = score t currentTime /\ first_minimal currentTime seen t
  end.

(** States reachable by calls of [policy], whatever the events. *)
Inductive reachable : State -> Prop :=
  | reachable_init : reachable initial_state
  | reachable_call st events currentCpuTask currentIoTask :
      reachable st -> reachable (policy events currentCpuTask currentIoTask st).2.

(** An event that respects the life cycle of its task: an arriving task
    is not queued yet, a task that requests IO is not already queued for
    IO, a task whose IO ends is not already queued for the CPU. *)
Definition event_ok (st : State) (ev : Event) : Prop :=
  let id := taskId (task ev) in
  match type ev with
  | EventType.kTaskArrival =>
      (id ∉ queued_ids (g_cpuTaskQueues st)) /\ (id ∉ queued_ids (g_ioTaskQueues st))
  | EventType.kIoRequest => id ∉ queued_ids (g_ioTaskQueues st)
  | EventType.kIoEnd => id ∉ queued_ids (g_cpuTaskQueues st)
  | EventType.kTaskFinish | EventType.kTimer => True
  end.

(** Every event of the batch respects the life cycle when it is folded. *)
Fixpoint batch_ok (st : State) (events : list Event) : Prop :=
  match events with
  | [] => True
  | ev :: rest => event_ok st ev /\ batch_ok (fold_event st ev) rest
  end.

(** States reachable by calls whose batches respect the life cycle. *)
Inductive reachable_ok : State -> Prop :=
  | reachable_ok_init : reachable_ok initial_state
  | reachable_ok_call st events currentCpuTask currentIoTask :
      reachable_ok st -> batch_ok st events ->
      reachable_ok (policy events currentCpuTask currentIoTask st).2.

(** An array that holds the single task [t], at level [i]. *)
Definition lone (i : nat) (t : Task) : Queues :=
  <[i := [t]]> (replicate NUM_PRIORITY_QUEUES []).

(** ** Concrete tasks and states used by the examples *)

(** The example of the specification: at time 5, task 5 is on time and
    task 7 is overdue, both at CPU level 0. *)
Definition task5 : Task := mkTask 5 Priority.kHigh 10 Status.kNormal.
Definition task7 : Task := mkTask 7 Priority.kHigh 2 Status.kNormal.
Definition example_state : State :=
  mkState 5 [[task5; task7]; []; []; []] [[]; []; []; []].

(** At time 0: a task due now, one due in 200000 ticks, one due 10 ticks ago. *)
Definition due_now : Task := mkTask 1 Priority.kHigh 0 Status.kNormal.
Definition due_far : Task := mkTask 2 Priority.kHigh 200000 Status.kNormal.
Definition due_past : Task := mkTask 3 Priority.kHigh (-10) Status.kNormal.

(** Task 1 arrives and is selected; then the IO of task 2 ends and task 2
    is selected (and migrated to level 1, behind task 1). *)
Definition worker : Task := mkTask 1 Priority.kHigh 50 Status.kNormal.
Definition io_task : Task := mkTask 2 Priority.kHigh 100 Status.kNormal.
Definition io_ended : Task := mkTask 2 Priority.kHigh 100 Status.kIoEnd.
Definition io_end_event : Event := mkEvent 3 EventType.kIoEnd io_task.
Definition after_io_end : State :=
  (policy [mkEvent 0 EventType.kIoEnd io_task] 1 0
     (policy [mkEvent 0 EventType.kTaskArrival worker] 0 0 initial_state).2).2.

(** The same task arrives in two successive calls. *)
Definition twice_arrived : State :=
  (policy [mkEvent 0 EventType.kTaskArrival worker] 1 0
     (policy [mkEvent 0 EventType.kTaskArrival worker] 0 0 initial_state).2).2.

(** One call with one well-behaved arrival. *)
Definition once_arrived : State :=
  (policy [mkEvent 0 EventType.kTaskArrival worker] 0 0 initial_state).2.

(** An IO array with one waiting task, and a third task for the instances. *)
Definition io_waiting : State := mkState 0 [[]; []; []; []] [[worker]; []; []; []].
Definition task9 : Task := mkTask 9 Priority.kHigh 20 Status.kNormal.
Definition finish5 : Event := mkEvent 6 EventType.kTaskFinish task5.
Definition request5 : Event := mkEvent 6 EventType.kIoRequest task5.
Definition arrival_worker : Event := mkEvent 0 EventType.kTaskArrival worker.
Definition finish_worker : Event := mkEvent 1 EventType.kTaskFinish worker.
Definition tick : Event := mkEvent 4 EventType.kTimer task5.


(** * Properties *)

(** ** Binary64: rounding, exact operations and the order *)

Module Binary64Facts.
Import Binary64.
Local Open Scope Z_scope.

Lemma digits2_pos_bounds (m : positive) :
  2 ^ (Zpos (digits2_pos m) - 1) <= Zpos m < 2 ^ Zpos (digits2_pos m).
Proof.
  induction m as [p IH | p IH | ]; cbn [digits2_pos].
  - rewrite Pos2Z.inj_succ.
    replace (Z.succ (Zpos (digits2_pos p)) - 1) with (Z.succ (Zpos (digits2_pos p) - 1)) by lia.
    rewrite !Z.pow_succ_r by lia. lia.
  - rewrite Pos2Z.inj_succ.
    replace (Z.succ (Zpos (digits2_pos p)) - 1) with (Z.succ (Zpos (digits2_pos p) - 1)) by lia.
    rewrite !Z.pow_succ_r by lia. lia.
  - cbn. lia.
Qed.

Lemma digits2_pos_unique (m : positive) (k : Z) :
  2 ^ (k - 1) <= Zpos m < 2 ^ k -> Zpos (digits2_pos m) = k.
Proof.
  intros [Hlo Hhi]. pose proof (digits2_pos_bounds m) as [Dlo Dhi].
  set (d := Zpos (digits2_pos m)) in *.
  assert (0 < d) by (subst d; lia).
  destruct (Z.lt_trichotomy d k) as [Hlt | [Heq | Hgt]]; [ | assumption | ].
  - assert (2 ^ d <= 2 ^ (k - 1)) by (apply Z.pow_le_mono_r; lia). lia.
  - assert (0 <= k) by (destruct (Z.le_gt_cases 0 k); [assumption |]; rewrite (Z.pow_neg_r 2 k) in Hhi by lia; lia).
    assert (2 ^ k <= 2 ^ (d - 1)) by (apply Z.pow_le_mono_r; lia). lia.
Qed.

Lemma iter_xO_val (m d : positive) :
  Zpos (Pos.iter xO m d) = Zpos m * 2 ^ Zpos d.
Proof.
  induction d as [ | d IH] using Pos.peano_ind.
  - cbn. lia.
  - rewrite Pos.iter_succ, Pos2Z.inj_succ, Z.pow_succ_r by lia.
    rewrite Pos2Z.inj_xO, IH. lia.
Qed.

Lemma digits2_iter_xO (m d : positive) :
  Zpos (digits2_pos (Pos.iter xO m d)) = Zpos (digits2_pos m) + Zpos d.
Proof.
  induction d as [ | d IH] using Pos.peano_ind.
  - cbn. lia.
  - rewrite Pos.iter_succ. cbn [digits2_pos]. rewrite !Pos2Z.inj_succ, IH. lia.
Qed.

Lemma iter_pos_iter {A} (f : A -> A) (p : positive) (x : A) :
  SpecFloat.iter_pos f p x = Pos.iter f x p.
Proof.
  revert x. induction p as [p IH | p IH | ]; intros x; cbn [SpecFloat.iter_pos Pos.iter].
  - rewrite !IH, <- !Pos.iter_swap. reflexivity.
  - rewrite !IH. reflexivity.
  - reflexivity.
Qed.

Lemma shr_1_nonneg (m : Z) (r s : bool) :
  0 <= m ->
  shr_1 (Build_shr_record m r s) = Build_shr_record (m / 2) (Z.odd m) (r || s).
Proof.
  intros Hm. destruct m as [ | p | p]; [reflexivity | | lia].
  destruct p as [p | p | ]; cbn [shr_1].
  - f_equal. rewrite Pos2Z.inj_xI. apply Z.div_unique with 1; lia.
  - f_equal. rewrite Pos2Z.inj_xO. apply Z.div_unique with 0; lia.
  - reflexivity.
Qed.

(** [p] right shifts of an exact record: the quotient, and whether anything
    was shifted out. *)
Lemma shr_iter_spec (M : Z) (p : positive) :
  0 <= M ->
  let rec := SpecFloat.iter_pos shr_1 p (Build_shr_record M false false) in
  shr_m rec = M / 2 ^ Zpos p /\
  (shr_r rec || shr_s rec = false <-> M mod 2 ^ Zpos p = 0).
Proof.
  intros HM. cbv zeta. rewrite iter_pos_iter.
  induction p as [ | p IH] using Pos.peano_ind.
  - cbn [Pos.iter]. rewrite shr_1_nonneg by assumption. cbn [shr_m shr_r shr_s].
    change (2 ^ 1) with 2. split; [reflexivity |].
    rewrite orb_false_r, Zmod_odd. destruct (Z.odd M); split; congruence.
  - rewrite Pos.iter_succ.
    destruct (Pos.iter shr_1 (Build_shr_record M false false) p) as [m r s] eqn:E.
    cbn [shr_m shr_r shr_s] in IH. destruct IH as [Hm Hrs].
    assert (0 < 2 ^ Zpos p) by (apply Z.pow_pos_nonneg; lia).
    assert (0 <= m) by (subst m; apply Z.div_pos; lia).
    rewrite shr_1_nonneg by assumption. cbn [shr_m shr_r shr_s].
    rewrite Pos2Z.inj_succ, Z.pow_succ_r by lia.
    split.
    + subst m. rewrite Z.div_div by lia. f_equal. lia.
    + pose proof (Z.div_mod M (2 ^ Zpos p) ltac:(lia)) as Hdm.
      pose proof (Z.mod_pos_bound M (2 ^ Zpos p) ltac:(lia)) as Hb.
      rewrite <- Hm in Hdm.
      pose proof (Zmod_odd m) as Hodd.
      pose proof (Z.div_mod m 2 ltac:(lia)) as Hdm2.
      assert (M mod (2 * 2 ^ Zpos p) = 2 ^ Zpos p * (m mod 2) + M mod 2 ^ Zpos p) as ->.
      { symmetry. apply Z.mod_unique with (m / 2); [ | ].
        - left. pose proof (Z.mod_pos_bound m 2 ltac:(lia)). nia.
        - nia. }
      destruct (Z.odd m); rewrite Hodd.
      * cbn. split; [congruence | lia].
      * cbn [orb]. rewrite Hrs. lia.
Qed.

Lemma fexp_normal (m : positive) (e : Z) :
  normal m e -> fexp prec emax (Zpos (digits2_pos m) + e) = e.
Proof. intros [Hd He]. rewrite Hd. unfold fexp, emin, prec, emax. lia. Qed.

(** Rounding a value that is already in normal form changes nothing. *)
Lemma round_aux_normal (s : bool) (m : positive) (e : Z) :
  normal m e ->
  binary_round_aux prec emax s (Zpos m) e loc_Exact = S754_finite s m e.
Proof.
  intros Hn. pose proof (fexp_normal m e Hn) as Hf. destruct Hn as [_ He].
  unfold binary_round_aux, shr_fexp. cbn [Zdigits2].
  rewrite Hf, Z.sub_diag.
  cbn [shr shr_record_of_loc shr_m loc_of_shr_record round_nearest_even Zdigits2].
  rewrite Hf, Z.sub_diag. cbn [shr shr_record_of_loc shr_m].
  replace (e <=? emax - prec) with true; [reflexivity |].
  symmetry. apply Z.leb_le. unfold emax, prec. lia.
Qed.

Lemma shr_exact (m0 j : positive) :
  SpecFloat.iter_pos shr_1 j (Build_shr_record (Zpos (Pos.iter xO m0 j)) false false)
  = Build_shr_record (Zpos m0) false false.
Proof.
  pose proof (shr_iter_spec (Zpos (Pos.iter xO m0 j)) j ltac:(lia)) as [Hm Hrs].
  cbv zeta in Hm, Hrs.
  destruct (SpecFloat.iter_pos shr_1 j _) as [m r s]. cbn [shr_m shr_r shr_s] in *.
  rewrite iter_xO_val in Hm, Hrs.
  assert (0 < 2 ^ Zpos j) by (apply Z.pow_pos_nonneg; lia).
  rewrite Z.div_mul in Hm by lia. rewrite Z.mod_mul in Hrs by lia.
  destruct Hrs as [_ Hrs]. specialize (Hrs eq_refl).
  apply orb_false_elim in Hrs as [-> ->]. congruence.
Qed.

(** Rounding a normal mantissa followed by [j] zero bits drops the zeros. *)
Lemma round_aux_shift (s : bool) (m0 j : positive) (e : Z) :
  normal m0 (e + Zpos j) ->
  binary_round_aux prec emax s (Zpos (Pos.iter xO m0 j)) e loc_Exact
  = S754_finite s m0 (e + Zpos j).
Proof.
  intros Hn. pose proof (fexp_normal _ _ Hn) as Hf. pose proof Hn as [Hd He].
  unfold binary_round_aux, shr_fexp. cbn [Zdigits2].
  rewrite digits2_iter_xO.
  replace (Zpos (digits2_pos m0) + Zpos j + e) with (Zpos (digits2_pos m0) + (e + Zpos j)) by lia.
  rewrite Hf. replace (e + Zpos j - e) with (Zpos j) by lia.
  cbn [shr shr_record_of_loc]. rewrite shr_exact.
  cbn [shr_m loc_of_shr_record round_nearest_even Zdigits2].
  rewrite Hf, Z.sub_diag. cbn [shr shr_record_of_loc shr_m].
  replace (e + Zpos j <=? emax - prec) with true; [reflexivity |].
  symmetry. apply Z.leb_le. unfold emax, prec. lia.
Qed.

(** [binary_round] of a short mantissa shifts it left into normal form. *)
Lemma binary_round_shl (s : bool) (m j : positive) (e : Z) :
  normal (Pos.iter xO m j) (e - Zpos j) ->
  binary_round prec emax s m e = S754_finite s (Pos.iter xO m j) (e - Zpos j).
Proof.
  intros Hn. pose proof (fexp_normal _ _ Hn) as Hf.
  rewrite digits2_iter_xO in Hf.
  unfold binary_round.
  replace (Zpos (digits2_pos m) + e) with (Zpos (digits2_pos m) + Zpos j + (e - Zpos j)) by lia.
  rewrite Hf. unfold shl_align.
  replace (e - Zpos j - e) with (Zneg j) by lia.
  apply round_aux_normal, Hn.
Qed.

Lemma binary_round_id (s : bool) (m : positive) (e : Z) :
  normal m e -> binary_round prec emax s m e = S754_finite s m e.
Proof.
  intros Hn. unfold binary_round. rewrite (fexp_normal _ _ Hn).
  unfold shl_align. rewrite Z.sub_diag. apply round_aux_normal, Hn.
Qed.

Lemma binary_round_shr (s : bool) (m0 j : positive) (e : Z) :
  normal m0 (e + Zpos j) ->
  binary_round prec emax s (Pos.iter xO m0 j) e = S754_finite s m0 (e + Zpos j).
Proof.
  intros Hn. pose proof (fexp_normal _ _ Hn) as Hf.
  unfold binary_round. rewrite digits2_iter_xO.
  replace (Zpos (digits2_pos m0) + Zpos j + e) with (Zpos (digits2_pos m0) + (e + Zpos j)) by lia.
  rewrite Hf. unfold shl_align.
  replace (e + Zpos j - e) with (Zpos j) by lia.
  apply round_aux_shift, Hn.
Qed.

(** [binary_round] returns the normal form of a representable value. *)
Lemma binary_round_repr (s : bool) (n : positive) (e : Z) (m0 : positive) (e0 : Z) :
  normal m0 e0 -> -1074 <= e ->
  Zpos n * 2 ^ (e + 1074) = Zpos m0 * 2 ^ (e0 + 1074) ->
  binary_round prec emax s n e = S754_finite s m0 e0.
Proof.
  intros Hn He Hv. pose proof Hn as [_ He0].
  destruct (Z.lt_trichotomy e e0) as [Hlt | [-> | Hgt]].
  - (* the value has trailing zeros at exponent [e] *)
    destruct (e0 - e) as [ | j | j] eqn:Hj; try lia.
    replace e0 with (e + Zpos j) in * by lia.
    replace (e + Zpos j + 1074) with (e + 1074 + Zpos j) in Hv by lia.
    rewrite (Z.pow_add_r 2 (e + 1074) (Zpos j)) in Hv by lia.
    assert (0 < 2 ^ (e + 1074)) by (apply Z.pow_pos_nonneg; lia).
    assert (Zpos n = Zpos (Pos.iter xO m0 j)) as Hnj by (rewrite iter_xO_val; nia).
    injection Hnj as ->. apply binary_round_shr, Hn.
  - assert (0 < 2 ^ (e0 + 1074)) by (apply Z.pow_pos_nonneg; lia).
    apply Z.mul_cancel_r in Hv; [ | lia]. injection Hv as ->. apply binary_round_id, Hn.
  - destruct (e - e0) as [ | j | j] eqn:Hj; try lia.
    replace e0 with (e - Zpos j) in * by lia.
    replace (e + 1074) with (e - Zpos j + 1074 + Zpos j) in Hv by lia.
    rewrite (Z.pow_add_r 2 (e - Zpos j + 1074) (Zpos j)) in Hv by lia.
    assert (0 < 2 ^ (e - Zpos j + 1074)) by (apply Z.pow_pos_nonneg; lia).
    assert (Zpos m0 = Zpos (Pos.iter xO n j)) as Hnj by (rewrite iter_xO_val; nia).
    injection Hnj as ->. apply binary_round_shl, Hn.
Qed.

Lemma digits2_pos_le (m : positive) (k : Z) :
  Zpos m < 2 ^ k -> Zpos (digits2_pos m) <= k.
Proof.
  intros Hm. pose proof (digits2_pos_bounds m) as [Dlo _].
  destruct (Z.le_gt_cases (Zpos (digits2_pos m)) k) as [ | Hgt]; [assumption |].
  assert (0 <= k) by (destruct (Z.le_gt_cases 0 k); [assumption |]; rewrite (Z.pow_neg_r 2 k) in Hm by lia; lia).
  assert (2 ^ k <= 2 ^ (Zpos (digits2_pos m) - 1)) by (apply Z.pow_le_mono_r; lia).
  lia.
Qed.

(** Integers below [2^53] in absolute value convert exactly. *)
Lemma of_int_pos (s : bool) (p : positive) :
  Zpos p < 2 ^ 53 ->
  exists m e, binary_round prec emax s p 0 = S754_finite s m e /\ normal m e /\
              -52 <= e <= 0 /\ Zpos m = Zpos p * 2 ^ (- e).
Proof.
  intros Hp. pose proof (digits2_pos_le p 53 Hp) as Hk.
  destruct (53 - Zpos (digits2_pos p)) as [ | j | j] eqn:Hj; try lia.
  - assert (normal p 0) as Hn by (split; unfold prec; lia).
    exists p, 0. split; [apply binary_round_id, Hn | split; [exact Hn | split; [lia |]]].
    change (2 ^ (- 0)) with 1. lia.
  - exists (Pos.iter xO p j), (0 - Zpos j).
    assert (normal (Pos.iter xO p j) (0 - Zpos j)) as Hn.
    { split; [rewrite digits2_iter_xO; unfold prec; lia | lia]. }
    split; [apply binary_round_shl, Hn | split; [exact Hn | split; [lia |]]].
    rewrite iter_xO_val. replace (- (0 - Zpos j)) with (Zpos j) by lia. reflexivity.
Qed.

Lemma of_int_spec (d : Z) :
  - 2 ^ 53 < d < 2 ^ 53 ->
  canonical (of_int d) /\ sval (of_int d) = d * 2 ^ 1074.
Proof.
  intros Hd. unfold of_int, binary_normalize.
  destruct d as [ | p | p].
  - split; [exact I | reflexivity].
  - destruct (of_int_pos false p ltac:(lia)) as (m & e & -> & Hn & He & Hm).
    split; [exact Hn |]. cbn [sval]. rewrite Hm. destruct Hn as [_ Hr].
    assert (2 ^ 1074 = 2 ^ (- e) * 2 ^ (e + 1074)) as ->
      by (rewrite <- Z.pow_add_r by lia; f_equal; lia).
    lia.
  - destruct (of_int_pos true p ltac:(lia)) as (m & e & -> & Hn & He & Hm).
    split; [exact Hn |]. cbn [sval]. rewrite Hm. destruct Hn as [_ Hr].
    assert (2 ^ 1074 = 2 ^ (- e) * 2 ^ (e + 1074)) as ->
      by (rewrite <- Z.pow_add_r by lia; f_equal; lia).
    lia.
Qed.

(** On normal numbers of one sign, the order is the order of the values. *)
Lemma normal_lt (m1 m2 : positive) (e1 e2 : Z) :
  normal m1 e1 -> normal m2 e2 -> e1 < e2 ->
  Zpos m1 * 2 ^ (e1 + 1074) < Zpos m2 * 2 ^ (e2 + 1074).
Proof.
  intros [D1 R1] [D2 R2] Hlt.
  pose proof (digits2_pos_bounds m1) as [_ H1]. pose proof (digits2_pos_bounds m2) as [H2 _].
  rewrite D1 in H1. rewrite D2 in H2. unfold prec in *.
  change (2 ^ (53 - 1)) with (2 ^ 52) in H2.
  assert (0 < 2 ^ (e1 + 1074)) by (apply Z.pow_pos_nonneg; lia).
  assert (2 * 2 ^ (e1 + 1074) <= 2 ^ (e2 + 1074)).
  { rewrite <- Z.pow_succ_r by lia. apply Z.pow_le_mono_r; lia. }
  change (2 ^ 53) with (2 * 2 ^ 52) in H1.
  assert (0 < 2 ^ 52) by lia.
  nia.
Qed.

Lemma sval_pos (m : positive) (e : Z) : 0 < Zpos m * 2 ^ (e + 1074) \/ e + 1074 < 0.
Proof.
  destruct (Z.le_gt_cases 0 (e + 1074)); [left | right; lia].
  assert (0 < 2 ^ (e + 1074)) by (apply Z.pow_pos_nonneg; lia). lia.
Qed.

Theorem ltb_sval (x y : spec_float) :
  canonical x -> canonical y -> ltb x y = (sval x <? sval y).
Proof.
  unfold ltb, SFltb.
  destruct x as [sx | sx | | sx mx ex], y as [sy | sy | | sy my ey];
    cbn [canonical]; try contradiction; intros Hx Hy; cbn [SFcompare sval].
  - reflexivity.
  - destruct (sval_pos my ey) as [Hp | Hp]; [ | destruct Hy; lia].
    destruct sy; symmetry; [apply Z.ltb_ge | apply Z.ltb_lt]; lia.
  - destruct (sval_pos mx ex) as [Hp | Hp]; [ | destruct Hx; lia].
    destruct sx; symmetry; [apply Z.ltb_lt | apply Z.ltb_ge]; lia.
  - destruct (sval_pos mx ex) as [Hpx | Hpx]; [ | destruct Hx; lia].
    destruct (sval_pos my ey) as [Hpy | Hpy]; [ | destruct Hy; lia].
    rewrite Pos.compare_cont_spec. cbn [Pos.switch_Eq].
    destruct sx, sy.
    + destruct (Z.compare_spec ex ey) as [-> | Hlt | Hgt].
      * rewrite Pos2Z.inj_compare.
        destruct (Z.compare_spec (Zpos mx) (Zpos my)) as [E | L | G]; cbn [CompOpp];
          symmetry; [apply Z.ltb_ge | apply Z.ltb_ge | apply Z.ltb_lt]; nia.
      * pose proof (normal_lt _ _ _ _ Hx Hy Hlt). symmetry. apply Z.ltb_ge. lia.
      * pose proof (normal_lt _ _ _ _ Hy Hx ltac:(lia)). symmetry. apply Z.ltb_lt. lia.
    + symmetry. apply Z.ltb_lt. lia.
    + symmetry. apply Z.ltb_ge. lia.
    + destruct (Z.compare_spec ex ey) as [-> | Hlt | Hgt].
      * rewrite Pos2Z.inj_compare.
        destruct (Z.compare_spec (Zpos mx) (Zpos my)) as [E | L | G];
          symmetry; [apply Z.ltb_ge | apply Z.ltb_lt | apply Z.ltb_ge]; nia.
      * pose proof (normal_lt _ _ _ _ Hx Hy Hlt). symmetry. apply Z.ltb_lt. lia.
      * pose proof (normal_lt _ _ _ _ Hy Hx ltac:(lia)). symmetry. apply Z.ltb_ge. lia.
Qed.

Lemma shl_align_fst (m : positive) (e e' : Z) :
  e' <= e -> Zpos (fst (shl_align m e e')) = Zpos m * 2 ^ (e - e').
Proof.
  intros Hle. unfold shl_align.
  destruct (e' - e) as [ | j | j] eqn:Hj; try lia; cbn [fst].
  - replace (e - e') with 0 by lia. lia.
  - rewrite iter_xO_val. replace (e - e') with (Zpos j) by lia. reflexivity.
Qed.

(** [binary_normalize] of a representable value is exact. *)
Lemma binary_normalize_repr (N e : Z) (z : spec_float) :
  canonical z -> -1074 <= e -> sval z = N * 2 ^ (e + 1074) ->
  canonical (binary_normalize prec emax N e false) /\
  sval (binary_normalize prec emax N e false) = N * 2 ^ (e + 1074).
Proof.
  intros Hz He Hv.
  assert (0 < 2 ^ (e + 1074)) as Hp by (apply Z.pow_pos_nonneg; lia).
  destruct N as [ | n | n]; cbn [binary_normalize].
  - split; [exact I | reflexivity].
  - destruct z as [sz | sz | | sz mz ez]; cbn [canonical sval] in Hz, Hv; try contradiction; [lia |].
    destruct (sval_pos mz ez) as [Hpz | Hpz]; [ | destruct Hz; lia].
    destruct sz; [lia |].
    rewrite (binary_round_repr false n e mz ez Hz He) by lia.
    split; [exact Hz |]. cbn [sval]. lia.
  - destruct z as [sz | sz | | sz mz ez]; cbn [canonical sval] in Hz, Hv; try contradiction; [lia |].
    destruct (sval_pos mz ez) as [Hpz | Hpz]; [ | destruct Hz; lia].
    destruct sz; [ | lia].
    rewrite (binary_round_repr true n e mz ez Hz He) by lia.
    split; [exact Hz |]. cbn [sval]. lia.
Qed.

(** Addition is exact whenever the sum is representable. *)
Theorem add_exact (x y z : spec_float) :
  canonical x -> canonical y -> canonical z -> sval z = sval x + sval y ->
  canonical (add x y) /\ sval (add x y) = sval x + sval y.
Proof.
  intros Hx Hy Hz Hv.
  destruct x as [sx | sx | | sx mx ex], y as [sy | sy | | sy my ey];
    cbn [canonical] in Hx, Hy; try contradiction; unfold add; cbn [SFadd].
  - destruct sx, sy; split; try exact I; reflexivity.
  - split; [exact Hy | reflexivity].
  - split; [exact Hx | cbn [sval]; lia].
  - pose proof Hx as [_ Rx]. pose proof Hy as [_ Ry].
    set (ez := Z.min ex ey).
    set (N := cond_Zopp sx (Zpos (fst (shl_align mx ex ez)))
              + cond_Zopp sy (Zpos (fst (shl_align my ey ez)))).
    assert (N * 2 ^ (ez + 1074) = sval (S754_finite sx mx ex) + sval (S754_finite sy my ey)) as HN.
    { subst N. rewrite !shl_align_fst by (subst ez; lia). cbn [sval].
      assert (2 ^ (ex + 1074) = 2 ^ (ex - ez) * 2 ^ (ez + 1074)) as ->
        by (rewrite <- Z.pow_add_r by (subst ez; lia); f_equal; lia).
      assert (2 ^ (ey + 1074) = 2 ^ (ey - ez) * 2 ^ (ez + 1074)) as ->
        by (rewrite <- Z.pow_add_r by (subst ez; lia); f_equal; lia).
      destruct sx, sy; cbn [cond_Zopp]; lia. }
    rewrite <- HN in Hv |- *.
    apply binary_normalize_repr with z; [exact Hz | subst ez; lia | exact Hv].
Qed.

(** Rounding a long mantissa: the result is the quotient of the shift, or
    its successor when something was shifted out. *)
Lemma round_aux_spec (s : bool) (M n : positive) (E : Z) :
  Zpos (digits2_pos M) = 53 + Zpos n ->
  -1074 <= E + Zpos n -> E + Zpos n + 1 <= 971 ->
  exists r,
    (r = Zpos M / 2 ^ Zpos n \/ (r = Zpos M / 2 ^ Zpos n + 1 /\ Zpos M mod 2 ^ Zpos n <> 0)) /\
    canonical (binary_round_aux prec emax s (Zpos M) E loc_Exact) /\
    sval (binary_round_aux prec emax s (Zpos M) E loc_Exact)
    = (if s then -1 else 1) * (r * 2 ^ (E + Zpos n + 1074)).
Proof.
  intros HD Hlo Hhi.
  pose proof (digits2_pos_bounds M) as [Mlo Mhi]. rewrite HD in Mlo, Mhi.
  assert (0 < 2 ^ Zpos n) as Hpn by (apply Z.pow_pos_nonneg; lia).
  replace (53 + Zpos n - 1) with (52 + Zpos n) in Mlo by lia.
  rewrite Z.pow_add_r in Mlo, Mhi by lia.
  assert (2 ^ 52 <= Zpos M / 2 ^ Zpos n < 2 ^ 53) as Hq.
  { split; [apply Z.div_le_lower_bound; lia | apply Z.div_lt_upper_bound; lia]. }
  unfold binary_round_aux, shr_fexp. cbn [Zdigits2]. rewrite HD.
  assert (fexp prec emax (53 + Zpos n + E) = E + Zpos n) as -> by (unfold fexp, emin, prec, emax; lia).
  replace (E + Zpos n - E) with (Zpos n) by lia.
  cbn [shr shr_record_of_loc].
  pose proof (shr_iter_spec (Zpos M) n ltac:(lia)) as [Hm Hrs]. cbv zeta in Hm, Hrs.
  destruct (SpecFloat.iter_pos shr_1 n _) as [q r0 s0]. cbn [shr_m shr_r shr_s] in *.
  set (r := round_nearest_even q (loc_of_shr_record (Build_shr_record q r0 s0))).
  assert (r = q \/ (r = q + 1 /\ Zpos M mod 2 ^ Zpos n <> 0)) as Hr.
  { subst r. destruct r0, s0; cbn [loc_of_shr_record round_nearest_even].
    - right. split; [reflexivity |]. intros Hex. apply Hrs in Hex. discriminate.
    - destruct (Z.even q); [left; reflexivity |].
      right. split; [reflexivity |]. intros Hex. apply Hrs in Hex. discriminate.
    - left; reflexivity.
    - left; reflexivity. }
  rewrite Hm in Hr. exists r. split; [exact Hr |].
  assert (2 ^ 52 <= r <= 2 ^ 53) as Hrb by lia.
  clearbody r. clear Hr Hrs Hm.
  destruct (Z.eq_dec r (2 ^ 53)) as [-> | Hne].
  - (* the rounding carried into a 54th bit *)
    change (2 ^ 53) with 9007199254740992.
    change (Zdigits2 9007199254740992) with 54.
    assert (fexp prec emax (54 + (E + Zpos n)) = E + Zpos n + 1) as ->
      by (unfold fexp, emin, prec, emax; lia).
    replace (E + Zpos n + 1 - (E + Zpos n)) with 1 by lia.
    cbn [shr shr_record_of_loc SpecFloat.iter_pos shr_1 shr_m].
    replace (E + Zpos n + 1 <=? emax - prec) with true
      by (symmetry; apply Z.leb_le; unfold emax, prec; lia).
    split.
    + split; [reflexivity | lia].
    + cbn [sval]. replace (E + Zpos n + 1 + 1074) with (Z.succ (E + Zpos n + 1074)) by lia.
      rewrite Z.pow_succ_r by lia. lia.
  - destruct r as [ | pr | pr]; try lia.
    assert (Zpos (digits2_pos pr) = 53) as Hd by (apply digits2_pos_unique; lia).
    cbn [Zdigits2]. rewrite Hd.
    assert (fexp prec emax (53 + (E + Zpos n)) = E + Zpos n) as ->
      by (unfold fexp, emin, prec, emax; lia).
    rewrite Z.sub_diag. cbn [shr shr_record_of_loc shr_m].
    replace (E + Zpos n <=? emax - prec) with true
      by (symmetry; apply Z.leb_le; unfold emax, prec; lia).
    split; [split; [exact Hd | lia] | reflexivity].
Qed.

(** The product of two normal numbers, when the result stays normal. *)
Lemma mul_finite_spec (sx sy : bool) (mx my : positive) (ex ey : Z) :
  normal mx ex -> normal my ey ->
  -1074 <= ex + ey + 52 -> ex + ey + 54 <= 971 ->
  exists (n : positive) (r : Z),
    (Zpos n = 52 \/ Zpos n = 53) /\
    2 ^ (52 + Zpos n) <= Zpos mx * Zpos my < 2 ^ (53 + Zpos n) /\
    (r = (Zpos mx * Zpos my) / 2 ^ Zpos n \/
     (r = (Zpos mx * Zpos my) / 2 ^ Zpos n + 1 /\ (Zpos mx * Zpos my) mod 2 ^ Zpos n <> 0)) /\
    canonical (mul (S754_finite sx mx ex) (S754_finite sy my ey)) /\
    sval (mul (S754_finite sx mx ex) (S754_finite sy my ey))
    = (if xorb sx sy then -1 else 1) * (r * 2 ^ (ex + ey + Zpos n + 1074)).
Proof.
  intros [Dx Rx] [Dy Ry] Hlo Hhi.
  pose proof (digits2_pos_bounds mx) as [Xlo Xhi]. rewrite Dx in Xlo, Xhi.
  pose proof (digits2_pos_bounds my) as [Ylo Yhi]. rewrite Dy in Ylo, Yhi.
  unfold prec in *. change (2 ^ (53 - 1)) with (2 ^ 52) in *.
  assert (2 ^ 104 <= Zpos (mx * my) < 2 ^ 106) as [Mlo Mhi].
  { rewrite Pos2Z.inj_mul. change (2 ^ 104) with (2 ^ 52 * 2 ^ 52).
    change (2 ^ 106) with (2 ^ 53 * 2 ^ 53). split; [ | nia].
    apply Z.mul_le_mono_nonneg; lia. }
  pose proof (digits2_pos_bounds (mx * my)) as [Dlo Dhi].
  set (D := Zpos (digits2_pos (mx * my))) in *.
  assert (104 < D) as HD1.
  { destruct (Z.le_gt_cases D 104); [ | lia].
    assert (2 ^ D <= 2 ^ 104) by (apply Z.pow_le_mono_r; lia). lia. }
  assert (D - 1 < 106) as HD2.
  { destruct (Z.le_gt_cases 106 (D - 1)); [ | lia].
    assert (2 ^ 106 <= 2 ^ (D - 1)) by (apply Z.pow_le_mono_r; lia). lia. }
  destruct (D - 53) as [ | n | n] eqn:Hn; try lia.
  assert (D = 53 + Zpos n) as HDn by lia.
  destruct (round_aux_spec (xorb sx sy) (mx * my) n (ex + ey) HDn ltac:(lia) ltac:(lia))
    as (r & Hr & Hc & Hv).
  exists n, r. rewrite <- Pos2Z.inj_mul.
  split; [lia |]. split.
  { rewrite HDn in Dlo, Dhi. replace (53 + Zpos n - 1) with (52 + Zpos n) in Dlo by lia. lia. }
  split; [exact Hr |]. split; [exact Hc | exact Hv].
Qed.

Lemma REGULAR_normal : normal 4503599627370496 (-52).
Proof. split; [reflexivity | lia]. Qed.

Lemma IO_END_normal : normal 7205759403792794 (-54).
Proof. split; [reflexivity | lia]. Qed.

(** Multiplying an [int] by [1.0] is exact. *)
Lemma mul_regular (d : Z) :
  - 2 ^ 53 < d < 2 ^ 53 ->
  canonical (mul REGULAR_TASK_PRIORITY_FACTOR (of_int d)) /\
  sval (mul REGULAR_TASK_PRIORITY_FACTOR (of_int d)) = d * 2 ^ 1074.
Proof.
  intros Hd. destruct (of_int_spec d Hd) as [Hc Hv]. rewrite <- Hv.
  destruct (of_int d) as [sy | sy | | sy my ey]; cbn [canonical] in Hc; try contradiction.
  - split; [exact I | reflexivity].
  - unfold REGULAR_TASK_PRIORITY_FACTOR.
    assert (ey <= 0) as Hey.
    { destruct (Z.le_gt_cases ey 0); [assumption |].
      pose proof (digits2_pos_bounds my) as [Ylo _]. destruct Hc as [Dy Ry].
      rewrite Dy in Ylo. unfold prec in Ylo. change (2 ^ (53 - 1)) with (2 ^ 52) in Ylo.
      cbn [sval] in Hv.
      assert (2 ^ 1075 <= 2 ^ (ey + 1074)) as Hpw by (apply Z.pow_le_mono_r; lia).
      change (2 ^ 1075) with (2 * 2 ^ 1074) in Hpw.
      assert (0 < 2 ^ 1074) by (apply Z.pow_pos_nonneg; lia).
      destruct sy; nia. }
    destruct (mul_finite_spec false sy 4503599627370496 my (-52) ey REGULAR_normal Hc
                ltac:(destruct Hc; lia) ltac:(lia))
      as (n & r & Hn & [Mlo Mhi] & Hr & Hcm & Hvm).
    split; [exact Hcm |]. rewrite Hvm. cbn [sval xorb].
    pose proof (digits2_pos_bounds my) as [Ylo Yhi]. destruct Hc as [Dy Ry].
    rewrite Dy in Ylo, Yhi. unfold prec in Ylo, Yhi.
    change (2 ^ (53 - 1)) with (2 ^ 52) in Ylo.
    change (Zpos 4503599627370496) with (2 ^ 52) in *.
    assert (Zpos n = 52) as Hn52.
    { destruct Hn as [ | Hn53]; [assumption |]. rewrite Hn53 in Mlo.
      change (2 ^ (52 + 53)) with (2 ^ 52 * 2 ^ 53) in Mlo. nia. }
    rewrite Hn52 in *.
    rewrite Z.mul_comm, Z.div_mul, Z.mod_mul in Hr by lia.
    destruct Hr as [-> | [_ Hr]]; [ | congruence].
    replace (-52 + ey + 52 + 1074) with (ey + 1074) by lia. reflexivity.
Qed.

(** Adding an [int] to [1e5] is exact. *)
Lemma add_overdue (d : Z) :
  - 2 ^ 52 < d < 2 ^ 52 ->
  canonical (add OVERDUE_PENALTY_SCORE (of_int d)) /\
  sval (add OVERDUE_PENALTY_SCORE (of_int d)) = (100000 + d) * 2 ^ 1074.
Proof.
  intros Hd.
  destruct (of_int_spec d ltac:(lia)) as [Hc Hv].
  destruct (of_int_spec (100000 + d) ltac:(lia)) as [Hcz Hvz].
  assert (canonical OVERDUE_PENALTY_SCORE) as Hco by (split; [reflexivity | lia]).
  assert (sval OVERDUE_PENALTY_SCORE = 100000 * 2 ^ 1074) as Hvo by reflexivity.
  destruct (add_exact OVERDUE_PENALTY_SCORE (of_int d) (of_int (100000 + d)) Hco Hc Hcz)
    as [Hca Hva]; [lia |].
  split; [exact Hca | lia].
Qed.

(** The conversion of a non-zero 32-bit value: its mantissa is the value
    shifted left by at least 21 bits. *)
Lemma of_int_32 (d : Z) :
  d <> 0 -> - 2 ^ 31 <= d <= 2 ^ 31 ->
  exists m e, of_int d = S754_finite (d <? 0) m e /\ normal m e /\
              -52 <= e <= -21 /\ Zpos m = Z.abs d * 2 ^ (- e).
Proof.
  intros Hd0 Hd. unfold of_int, binary_normalize.
  destruct d as [ | p | p]; [congruence | | ].
  - destruct (of_int_pos false p ltac:(lia)) as (m & e & Hr & Hn & He & Hm).
    exists m, e. split; [exact Hr | split; [exact Hn | split; [ | exact Hm]]].
    split; [lia |].
    destruct (Z.le_gt_cases e (-21)); [assumption |].
    pose proof (digits2_pos_bounds m) as [Mlo _]. destruct Hn as [Dm _].
    rewrite Dm in Mlo. unfold prec in Mlo. change (2 ^ (53 - 1)) with (2 ^ 52) in Mlo.
    assert (2 ^ (- e) <= 2 ^ 20) by (apply Z.pow_le_mono_r; lia).
    assert (0 < 2 ^ (- e)) by (apply Z.pow_pos_nonneg; lia). nia.
  - destruct (of_int_pos true p ltac:(lia)) as (m & e & Hr & Hn & He & Hm).
    exists m, e. split; [exact Hr | split; [exact Hn | split; [ | exact Hm]]].
    split; [lia |].
    destruct (Z.le_gt_cases e (-21)); [assumption |].
    pose proof (digits2_pos_bounds m) as [Mlo _]. destruct Hn as [Dm _].
    rewrite Dm in Mlo. unfold prec in Mlo. change (2 ^ (53 - 1)) with (2 ^ 52) in Mlo.
    assert (2 ^ (- e) <= 2 ^ 20) by (apply Z.pow_le_mono_r; lia).
    assert (0 < 2 ^ (- e)) by (apply Z.pow_pos_nonneg; lia).
    change (Z.abs (Zneg p)) with (Zpos p) in Hm. nia.
Qed.

(** The boosted score of a 32-bit gap is a normal number of small size. *)
Lemma mul_boost (d : Z) :
  - 2 ^ 31 <= d <= 2 ^ 31 ->
  canonical (mul IO_END_PRIORITY_BOOST_FACTOR (of_int d)) /\
  - (2 ^ 53 * 2 ^ 1052) <= sval (mul IO_END_PRIORITY_BOOST_FACTOR (of_int d)) <= 2 ^ 53 * 2 ^ 1052.
Proof.
  intros Hd. destruct (Z.eq_dec d 0) as [-> | Hd0].
  { split; [exact I | cbn; lia]. }
  destruct (of_int_32 d Hd0 Hd) as (m & e & -> & Hn & He & Hm).
  unfold IO_END_PRIORITY_BOOST_FACTOR.
  destruct (mul_finite_spec false (d <? 0) 7205759403792794 m (-54) e IO_END_normal Hn
              ltac:(destruct Hn; lia) ltac:(lia))
    as (n & r & Hn' & [Mlo Mhi] & Hr & Hcm & Hvm).
  split; [exact Hcm |]. rewrite Hvm.
  assert (0 < 2 ^ Zpos n) as Hpn by (apply Z.pow_pos_nonneg; lia).
  rewrite Z.pow_add_r in Mlo, Mhi by lia.
  assert (2 ^ 52 <= Zpos 7205759403792794 * Zpos m / 2 ^ Zpos n < 2 ^ 53) as Hq.
  { split; [apply Z.div_le_lower_bound; lia | apply Z.div_lt_upper_bound; lia]. }
  assert (0 <= r <= 2 ^ 53) as Hrb by lia.
  assert (0 < 2 ^ (-54 + e + Zpos n + 1074) <= 2 ^ 1052) as [Gpos Gle].
  { split; [apply Z.pow_pos_nonneg; destruct Hn; lia | apply Z.pow_le_mono_r; lia]. }
  assert (0 <= r * 2 ^ (-54 + e + Zpos n + 1074) <= 2 ^ 53 * 2 ^ 1052) as Hb.
  { split; [apply Z.mul_nonneg_nonneg; lia | apply Z.mul_le_mono_nonneg; lia]. }
  destruct (xorb false (d <? 0)); lia.
Qed.

(** Against an integer, the boosted score of a positive gap [d] compares
    as the rational [2d/5] does. *)
Lemma boost_lt_int (d N : Z) :
  0 < d < 2 ^ 31 -> - 2 ^ 33 <= N <= 2 ^ 33 ->
  ltb (mul IO_END_PRIORITY_BOOST_FACTOR (of_int d)) (of_int N) = (2 * d <? 5 * N).
Proof.
  intros Hd HN.
  destruct (mul_boost d ltac:(lia)) as [Hcb _].
  destruct (of_int_spec N ltac:(lia)) as [HcN HvN].
  rewrite (ltb_sval _ _ Hcb HcN), HvN. clear Hcb HcN HvN.
  destruct (of_int_32 d ltac:(lia) ltac:(lia)) as (m & e & -> & Hn & He & Hm).
  replace (d <? 0) with false by (symmetry; apply Z.ltb_ge; lia).
  unfold IO_END_PRIORITY_BOOST_FACTOR.
  destruct (mul_finite_spec false false 7205759403792794 m (-54) e IO_END_normal Hn
              ltac:(destruct Hn; lia) ltac:(lia))
    as (n & r & Hn' & [Mlo Mhi] & Hr & _ & ->).
  cbn [xorb]. rewrite Z.abs_eq in Hm by lia.
  destruct Hn as [_ Re].
  set (G := 2 ^ (-54 + e + Zpos n + 1074)).
  assert (0 < G) as HG by (apply Z.pow_pos_nonneg; lia).
  set (u := 2 ^ (- e)) in *.
  assert (2 ^ 21 <= u) as Hu by (apply Z.pow_le_mono_r; lia).
  assert (2 ^ 1074 = G * (2 ^ (54 - Zpos n) * u)) as ->.
  { subst G u. rewrite <- !Z.pow_add_r by lia. f_equal. lia. }
  set (D := Zpos m) in *. set (P := N * u).
  assert (0 < D) as HD0 by (subst D; lia).
  assert (- 2 ^ 33 * u <= P <= 2 ^ 33 * u) as HP by (subst P; nia).
  assert ((1 * (r * G) <? N * (G * (2 ^ (54 - Zpos n) * u)))
          = (r <? 2 ^ (54 - Zpos n) * P)) as ->.
  { subst P. destruct (Z.ltb_spec r (2 ^ (54 - Zpos n) * (N * u)));
      [apply Z.ltb_lt | apply Z.ltb_ge]; nia. }
  destruct (Z.ltb_spec (2 * d) (5 * N)) as [Hlt | Hge].
  - assert (2 * D + u <= 5 * P) as HDP by (subst P; nia).
    apply Z.ltb_lt. clearbody D P u. clear Hm Hlt HG Mlo Mhi G Hd HN Re He.
    destruct Hn' as [Hn' | Hn']; rewrite Hn' in *;
      [change (2 ^ (54 - 52)) with 4 | change (2 ^ (54 - 53)) with 2];
      destruct Hr as [-> | [-> _]]; Z.to_euclidean_division_equations; lia.
  - assert (5 * P <= 2 * D) as HDP by (subst P; nia).
    apply Z.ltb_ge. clearbody D P u. clear Hm Hge HG Mlo Mhi G Hd HN Re He.
    destruct Hn' as [Hn' | Hn']; rewrite Hn' in *;
      [change (2 ^ (54 - 52)) with 4 | change (2 ^ (54 - 53)) with 2];
      destruct Hr as [-> | [-> _]]; Z.to_euclidean_division_equations; lia.
Qed.

End Binary64Facts.

(** ** Scores *)

Section Scores.
Import Binary64 Binary64Facts.
Local Open Scope Z_scope.

Lemma int_wrap_range (z : Z) : - 2 ^ 31 <= int_wrap z < 2 ^ 31.
Proof.
  unfold int_wrap. pose proof (Z.mod_pos_bound (z + 2 ^ 31) (2 ^ 32) ltac:(lia)). lia.
Qed.

Lemma int_wrap_id (z : Z) : int_range z -> int_wrap z = z.
Proof.
  unfold int_range, INT_MIN, INT_MAX, int_wrap. intros Hz.
  rewrite Z.mod_small by lia. lia.
Qed.

Lemma DBL_MAX_canonical : canonical DBL_MAX.
Proof. split; [reflexivity | split; intros H; discriminate H]. Qed.

(** Every score is a zero or a normal number, well below [DBL_MAX]. *)
Lemma score_bounded (t : Task) (now : Z) :
  canonical (score t now) /\
  - (2 ^ 53 * 2 ^ 1052) <= sval (score t now) <= 2 ^ 53 * 2 ^ 1053.
Proof.
  unfold score. pose proof (int_wrap_range (deadline t - now)) as Hw.
  fold (int_sub (deadline t) now) in Hw. set (d := int_sub (deadline t) now) in *.
  assert (0 < 2 ^ 1074) as Hp by (apply Z.pow_pos_nonneg; lia).
  assert (2 ^ 53 * 2 ^ 1052 = 2 ^ 31 * 2 ^ 1074) as E1 by (rewrite <- !Z.pow_add_r by lia; reflexivity).
  assert (2 ^ 53 * 2 ^ 1053 = 2 ^ 32 * 2 ^ 1074) as E2 by (rewrite <- !Z.pow_add_r by lia; reflexivity).
  destruct (now <? deadline t); [destruct (status t) | ].
  - destruct (mul_regular d ltac:(lia)) as [Hc ->]. split; [exact Hc | nia].
  - destruct (mul_boost d ltac:(lia)) as [Hc Hv]. split; [exact Hc | lia].
  - destruct (add_overdue d ltac:(lia)) as [Hc ->]. split; [exact Hc | nia].
Qed.

Lemma score_canonical (t : Task) (now : Z) : canonical (score t now).
Proof. apply score_bounded. Qed.

Lemma ltb_score (a b : Task) (now : Z) :
  ltb (score a now) (score b now) = (sval (score a now) <? sval (score b now)).
Proof. apply ltb_sval; apply score_canonical. Qed.

Lemma score_lt_max (t : Task) (now : Z) : ltb (score t now) DBL_MAX = true.
Proof.
  rewrite (ltb_sval _ _ (score_canonical t now) DBL_MAX_canonical).
  apply Z.ltb_lt. destruct (score_bounded t now) as [_ [_ Hhi]].
  eapply Z.le_lt_trans; [exact Hhi |]. vm_compute. reflexivity.
Qed.

End Scores.


Section Scan.
Import Binary64 Binary64Facts.
Variable now : Z.

Lemma scan_step_inv (seen : list Task) (acc : option Task * spec_float) (v : Task) :
  scan_inv now seen acc -> scan_inv now (seen ++ [v]) (scan_step now acc v).
Proof.
  destruct acc as [[t | ] minScore]; unfold scan_inv, scan_step; cbn [fst snd].
  - intros [-> (pre & post & -> & Hpre & Hpost)].
    destruct (ltb (score v now) (score t now)) eqn:Hlt; cbn [fst snd].
    + split; [reflexivity |].
      exists (pre ++ t :: post), []. split; [reflexivity |].
      split; [ | intros u Hu; inversion Hu].
      intros u Hu. rewrite ltb_score in Hlt |- *. apply Z.ltb_lt in Hlt. apply Z.ltb_lt.
      apply elem_of_app in Hu as [Hu | Hu]; [ | apply elem_of_cons in Hu as [-> | Hu]].
      * specialize (Hpre u Hu). rewrite ltb_score in Hpre. apply Z.ltb_lt in Hpre. lia.
      * exact Hlt.
      * specialize (Hpost u Hu). rewrite ltb_score in Hpost. apply Z.ltb_ge in Hpost. lia.
    + split; [reflexivity |].
      exists pre, (post ++ [v]). split; [by rewrite <- app_assoc |].
      split; [exact Hpre |].
      intros u Hu. apply elem_of_app in Hu as [Hu | Hu]; [by apply Hpost |].
      apply list_elem_of_singleton in Hu as ->. exact Hlt.
  - intros [-> ->]. rewrite score_lt_max. cbn [fst snd].
    split; [reflexivity |]. exists [], []. split; [reflexivity |].
    split; intros u Hu; inversion Hu.
Qed.

Lemma scan_foldl_inv (v seen : list Task) (acc : option Task * spec_float) :
  scan_inv now seen acc -> scan_inv now (seen ++ v) (foldl (scan_step now) acc v).
Proof.
  revert seen acc. induction v as [ | x v IH]; intros seen acc Hinv; cbn [foldl].
  - by rewrite app_nil_r.
  - replace (seen ++ x :: v) with ((seen ++ [x]) ++ v) by (by rewrite <- app_assoc).
    apply IH, scan_step_inv, Hinv.
Qed.

Lemma scan_level_inv (v : list Task) : scan_inv now v (scan_level now v).
Proof. apply (scan_foldl_inv v [] (None, DBL_MAX)). by split. Qed.

(** The scan of a non-empty level selects its first minimal task. *)
Lemma scan_level_nonempty (v : list Task) :
  v <> [] -> exists t, (scan_level now v).1 = Some t /\ first_minimal now v t.
Proof.
  intros Hne. pose proof (scan_level_inv v) as Hinv. unfold scan_inv in Hinv.
  destruct (scan_level now v).1 as [t | ]; [ | by destruct Hinv].
  exists t. by destruct Hinv.
Qed.

Lemma scan_level_selected (v : list Task) (t : Task) :
  (scan_level now v).1 = Some t -> first_minimal now v t.
Proof.
  intros Hsel. pose proof (scan_level_inv v) as Hinv. unfold scan_inv in Hinv.
  rewrite Hsel in Hinv. by destruct Hinv.
Qed.

Lemma first_minimal_elem (v : list Task) (t : Task) : first_minimal now v t -> t ∈ v.
Proof. intros (pre & post & -> & _). apply elem_of_app. right. apply elem_of_cons. by left. Qed.

(** No task of the level scores below the first minimal one. *)
Lemma first_minimal_least (v : list Task) (t u : Task) :
  first_minimal now v t -> u ∈ v -> ltb (score u now) (score t now) = false.
Proof.
  intros (pre & post & -> & Hpre & Hpost) Hu.
  apply elem_of_app in Hu as [Hu | Hu]; [ | apply elem_of_cons in Hu as [-> | Hu]].
  - specialize (Hpre u Hu). rewrite ltb_score in Hpre |- *.
    apply Z.ltb_lt in Hpre. apply Z.ltb_ge. lia.
  - rewrite ltb_score. apply Z.ltb_irrefl.
  - by apply Hpost.
Qed.

End Scan.

Section Migration.
Implicit Types (q : Queues) (t : Task).

Lemma select_empty q (fromLevel toLevel : nat) (now : Z) :
  q !!! fromLevel = [] -> selectAndMigrateTask q fromLevel toLevel now = (None, q).
Proof. intros Hnil. unfold selectAndMigrateTask. by rewrite Hnil. Qed.

Lemma select_nonempty q (fromLevel toLevel : nat) (now : Z) :
  q !!! fromLevel <> [] ->
  exists t, first_minimal now (q !!! fromLevel) t /\
    selectAndMigrateTask q fromLevel toLevel now
    = (Some t, push_back (<[fromLevel := erase_id (taskId t) (q !!! fromLevel)]> q) toLevel t).
Proof.
  intros Hne. destruct (scan_level_nonempty now _ Hne) as (t & Hsel & Hmin).
  exists t. split; [exact Hmin |]. unfold selectAndMigrateTask. by rewrite Hsel.
Qed.

Lemma select_Some_inv q (fromLevel toLevel : nat) (now : Z) t q' :
  selectAndMigrateTask q fromLevel toLevel now = (Some t, q') ->
  first_minimal now (q !!! fromLevel) t /\
  q' = push_back (<[fromLevel := erase_id (taskId t) (q !!! fromLevel)]> q) toLevel t.
Proof.
  unfold selectAndMigrateTask.
  destruct (scan_level now (q !!! fromLevel)).1 as [sel | ] eqn:Hsel; [ | discriminate].
  intros [= -> <-]. split; [by apply scan_level_selected | reflexivity].
Qed.

Lemma select_None_inv q (fromLevel toLevel : nat) (now : Z) q' :
  selectAndMigrateTask q fromLevel toLevel now = (None, q') ->
  q !!! fromLevel = [] /\ q' = q.
Proof.
  intros Hsel. destruct (decide (q !!! fromLevel = [])) as [Hnil | Hne].
  - rewrite (select_empty _ _ _ _ Hnil) in Hsel. by injection Hsel as <-.
  - destruct (select_nonempty q fromLevel toLevel now Hne) as (t & _ & Heq).
    rewrite Heq in Hsel. discriminate.
Qed.

Lemma push_back_length q (level : nat) t : length (push_back q level t) = length q.
Proof. apply length_insert. Qed.

Lemma push_back_lookup_eq q (level : nat) t :
  level < length q -> push_back q level t !!! level = (q !!! level) ++ [t].
Proof. intros Hlt. unfold push_back. by rewrite list_lookup_total_insert_eq. Qed.

Lemma push_back_lookup_ne q (level j : nat) t :
  level <> j -> push_back q level t !!! j = q !!! j.
Proof. intros Hne. unfold push_back. by rewrite list_lookup_total_insert_ne. Qed.

(** The array after a migration between two distinct levels. *)
Lemma migrate_lookup q (fromLevel toLevel : nat) t :
  fromLevel <> toLevel -> fromLevel < length q -> toLevel < length q ->
  let q' := push_back (<[fromLevel := erase_id (taskId t) (q !!! fromLevel)]> q) toLevel t in
  q' !!! fromLevel = erase_id (taskId t) (q !!! fromLevel) /\
  q' !!! toLevel = (q !!! toLevel) ++ [t] /\
  (forall j, j <> fromLevel -> j <> toLevel -> q' !!! j = q !!! j).
Proof.
  intros Hne Hf Ht. cbv zeta. split; [ | split].
  - rewrite push_back_lookup_ne by congruence. by rewrite list_lookup_total_insert_eq.
  - rewrite push_back_lookup_eq by (by rewrite length_insert).
    by rewrite list_lookup_total_insert_ne.
  - intros j Hjf Hjt. rewrite push_back_lookup_ne by congruence.
    by rewrite list_lookup_total_insert_ne.
Qed.

Lemma erase_id_spec (id : Z) (v : list Task) t :
  t ∈ erase_id id v <-> taskId t <> id /\ t ∈ v.
Proof. unfold erase_id. by rewrite list_elem_of_filter. Qed.

Lemma erase_id_absent (id : Z) (v : list Task) :
  (forall t, t ∈ v -> taskId t <> id) -> erase_id id v = v.
Proof.
  unfold erase_id. induction v as [ | x v IH]; intros Habs; [reflexivity |].
  rewrite filter_cons_True by (apply Habs, elem_of_cons; by left).
  f_equal. apply IH. intros t Ht. apply Habs, elem_of_cons. by right.
Qed.

Lemma erase_id_idemp (id : Z) (v : list Task) :
  erase_id id (erase_id id v) = erase_id id v.
Proof. apply erase_id_absent. intros t Ht. by apply erase_id_spec in Ht as [? _]. Qed.

(** On an array of at most four levels (the only arrays the code has),
    the loop of [removeTaskFromQueues] erases the id in every level. *)
Lemma removeTaskFromQueues_fmap q (id : Z) :
  length q <= NUM_PRIORITY_QUEUES -> removeTaskFromQueues q id = erase_id id <$> q.
Proof.
  intros Hlen. destruct q as [ | a [ | b [ | c [ | d [ | e q]]]]]; try reflexivity.
  cbn in Hlen. unfold NUM_PRIORITY_QUEUES in Hlen. lia.
Qed.

End Migration.

(** ** The claims *)

Section Claims.
Import Binary64 Binary64Facts.
Implicit Types (q : Queues) (t u : Task) (st : State).

(** The scores of tasks whose gap to the clock fits an [int]. *)
Lemma score_on_time_regular t (now : Z) :
  (now < deadline t)%Z -> status t = Status.kNormal -> int_range (deadline t - now) ->
  sval (score t now) = ((deadline t - now) * 2 ^ 1074)%Z.
Proof.
  intros Hon Hst Hr. unfold score, int_sub.
  replace (now <? deadline t)%Z with true by (symmetry; by apply Z.ltb_lt).
  rewrite Hst, (int_wrap_id _ Hr).
  unfold int_range, INT_MIN, INT_MAX in Hr. apply mul_regular. lia.
Qed.

Lemma score_overdue t (now : Z) :
  (deadline t <= now)%Z -> int_range (deadline t - now) ->
  sval (score t now) = ((100000 + (deadline t - now)) * 2 ^ 1074)%Z.
Proof.
  intros Hov Hr. unfold score, int_sub.
  replace (now <? deadline t)%Z with false by (symmetry; by apply Z.ltb_ge).
  rewrite (int_wrap_id _ Hr).
  unfold int_range, INT_MIN, INT_MAX in Hr. apply add_overdue. lia.
Qed.

Lemma score_on_time_boosted_lt t (now N : Z) :
  (now < deadline t)%Z -> status t = Status.kIoEnd -> int_range (deadline t - now) ->
  (- 2 ^ 33 <= N <= 2 ^ 33)%Z ->
  (sval (score t now) <? N * 2 ^ 1074)%Z = (2 * (deadline t - now) <? 5 * N)%Z.
Proof.
  intros Hon Hst Hr HN.
  destruct (of_int_spec N ltac:(lia)) as [HcN HvN].
  rewrite <- HvN, <- (ltb_sval _ _ (score_canonical t now) HcN).
  unfold score, int_sub.
  replace (now <? deadline t)%Z with true by (symmetry; by apply Z.ltb_lt).
  rewrite Hst, (int_wrap_id _ Hr).
  unfold int_range, INT_MIN, INT_MAX in Hr. apply boost_lt_int; lia.
Qed.

(** C1 (as amended): an overdue task scores [100000 + gap] with a gap that
    is zero or negative, an on-time task [1.0] or [0.4] times its positive
    gap.  The on-time task scores strictly below the overdue one exactly
    when its gap (times [2/5] if boosted) is below [100000] plus the
    overdue gap; and among overdue tasks the score grows with the deadline,
    so the most overdue task scores lowest and the one whose deadline is
    closest to the clock scores highest. *)
Theorem overdue_score_order (now : Z) (t_on t_over : Task) :
  int_range (deadline t_on - now) -> int_range (deadline t_over - now) ->
  (deadline t_over <= now)%Z ->
  ((now < deadline t_on)%Z ->
     ltb (score t_on now) (score t_over now)
     = match status t_on with
       | Status.kIoEnd =>
           (2 * (deadline t_on - now) <? 5 * (100000 + (deadline t_over - now)))%Z
       | Status.kNormal =>
           (deadline t_on - now <? 100000 + (deadline t_over - now))%Z
       end) /\
  ((deadline t_on <= now)%Z ->
     ltb (score t_on now) (score t_over now) = (deadline t_on <? deadline t_over)%Z).
Proof.
  intros Hr1 Hr2 Hov. rewrite ltb_score, (score_overdue t_over now Hov Hr2).
  assert (0 < 2 ^ 1074)%Z as Hp by (apply Z.pow_pos_nonneg; lia).
  split.
  - intros Hon. destruct (status t_on) eqn:Hst.
    + rewrite (score_on_time_regular t_on now Hon Hst Hr1).
      destruct (Z.ltb_spec (deadline t_on - now) (100000 + (deadline t_over - now)));
        [apply Z.ltb_lt | apply Z.ltb_ge]; nia.
    + apply score_on_time_boosted_lt; try assumption.
      unfold int_range, INT_MIN, INT_MAX in Hr2. lia.
  - intros Hov1. rewrite (score_overdue t_on now Hov1 Hr1).
    destruct (Z.ltb_spec (deadline t_on) (deadline t_over));
      [apply Z.ltb_lt | apply Z.ltb_ge]; nia.
Qed.

(** C2 (as amended): selection never clears the JustFinishedIO status.  The
    task appended to the target level is the selected task itself, status
    included, so in every later pass in which its deadline is ahead of the
    clock it is again scored with the 0.4 factor. *)
Theorem select_keeps_io_boost q (fromLevel toLevel : nat) (now : Z) t q' :
  selectAndMigrateTask q fromLevel toLevel now = (Some t, q') ->
  toLevel < length q ->
  status t = Status.kIoEnd ->
  (exists v, q' !!! toLevel = v ++ [t]) /\
  forall now' : Z, (now' < deadline t)%Z ->
    score t now' = mul IO_END_PRIORITY_BOOST_FACTOR (of_int (int_sub (deadline t) now')).
Proof.
  intros Hsel Hto Hst. apply select_Some_inv in Hsel as [_ ->]. split.
  - rewrite push_back_lookup_eq by (by rewrite length_insert). by eexists.
  - intros now' Hon. unfold score.
    replace (now' <? deadline t)%Z with true by (symmetry; by apply Z.ltb_lt).
    by rewrite Hst.
Qed.

(** C3: folding an IoEnd event erases the id from every level of the IO
    array and appends the snapshot, with status JustFinishedIO, to CPU
    level 0 (High) or 2 (Low); the other CPU levels and the remaining IO
    entries are untouched. *)
Theorem fold_event_io_end st (ev : Event) :
  type ev = EventType.kIoEnd -> wf_state st ->
  let id := taskId (task ev) in
  let lvl := match priority (task ev) with Priority.kHigh => 0 | Priority.kLow => 2 end in
  let snapshot := mkTask id (priority (task ev)) (deadline (task ev)) Status.kIoEnd in
  let st' := fold_event st ev in
  (forall i, g_ioTaskQueues st' !!! i
             = filter (fun t => taskId t <> id) (g_ioTaskQueues st !!! i)) /\
  length (g_ioTaskQueues st') = length (g_ioTaskQueues st) /\
  g_cpuTaskQueues st' !!! lvl = (g_cpuTaskQueues st !!! lvl) ++ [snapshot] /\
  (forall j, j <> lvl -> g_cpuTaskQueues st' !!! j = g_cpuTaskQueues st !!! j) /\
  length (g_cpuTaskQueues st') = length (g_cpuTaskQueues st) /\
  g_currentTime st' = time ev.
Proof.
  intros Hty [Hcpu Hio]. cbv zeta. unfold fold_event. rewrite Hty.
  cbn [g_ioTaskQueues g_cpuTaskQueues g_currentTime].
  rewrite removeTaskFromQueues_fmap by (by rewrite Hio).
  assert (entry_level (priority (with_status (task ev) Status.kIoEnd))
          = match priority (task ev) with Priority.kHigh => 0 | Priority.kLow => 2 end) as ->
    by (unfold with_status; cbn; by destruct (priority (task ev))).
  set (lvl := match priority (task ev) with Priority.kHigh => 0 | Priority.kLow => 2 end).
  assert (lvl < length (g_cpuTaskQueues st)) as Hlvl
    by (rewrite Hcpu; subst lvl; unfold NUM_PRIORITY_QUEUES; destruct (priority (task ev)); lia).
  split; [ | split; [ | split; [ | split; [ | split]]]].
  - intros i. rewrite !list_lookup_total_alt, list_lookup_fmap.
    by destruct (g_ioTaskQueues st !! i).
  - by rewrite length_fmap.
  - by rewrite push_back_lookup_eq.
  - intros j Hj. by rewrite push_back_lookup_ne.
  - apply push_back_length.
  - reflexivity.
Qed.

(** A pass over levels that include a non-empty one chooses a task. *)
Lemma select_pass_nonempty q (levels : list nat) (now : Z) (i : nat) :
  q !!! i <> [] -> i ∈ levels ->
  exists id q', select_pass q levels now = (Some id, q').
Proof.
  intros Hne. induction levels as [ | j levels IH]; intros Hin; [inversion Hin |].
  cbn [select_pass]. destruct (decide (q !!! j = [])) as [Hnil | Hj].
  - rewrite (select_empty _ _ _ _ Hnil). apply IH.
    apply elem_of_cons in Hin as [-> | Hin]; [contradiction | exact Hin].
  - destruct (select_nonempty q j (next_level j) now Hj) as (t & _ & ->). by eexists _, _.
Qed.

(** C4: the selection step on a non-empty level always selects a task, and
    it is the first task of the level, in insertion order, among those of
    minimal score; a pass over levels that include a non-empty level never
    comes back without a task. *)
Theorem select_first_minimal q (fromLevel toLevel : nat) (now : Z) :
  q !!! fromLevel <> [] ->
  (exists t q',
     selectAndMigrateTask q fromLevel toLevel now = (Some t, q') /\
     t ∈ q !!! fromLevel /\
     (forall u, u ∈ q !!! fromLevel -> ltb (score u now) (score t now) = false) /\
     exists pre post,
       q !!! fromLevel = pre ++ t :: post /\
       (forall u, u ∈ pre -> ltb (score t now) (score u now) = true)) /\
  (forall levels, fromLevel ∈ levels ->
     exists id q', select_pass q levels now = (Some id, q')).
Proof.
  intros Hne. split; [ | intros levels Hin; by eapply select_pass_nonempty].
  destruct (select_nonempty q fromLevel toLevel now Hne) as (t & Hmin & Hsel).
  exists t. eexists. split; [exact Hsel |].
  split; [by eapply first_minimal_elem |].
  split; [intros u Hu; by eapply first_minimal_least |].
  destruct Hmin as (pre & post & Heq & Hpre & _). by exists pre, post.
Qed.

(** C6: while the IO device is busy the IO pass does not run: the action
    keeps the IO occupant and the IO array is the one left by the events.
    The CPU pass runs on every call. *)
Theorem policy_io_busy (events : list Event) (currentCpuTask currentIoTask : Z) st :
  let st1 := fold_events st events in
  let cpu_pass := select_pass (g_cpuTaskQueues st1) all_levels (g_currentTime st1) in
  let r := policy events currentCpuTask currentIoTask st in
  (cpuTask r.1 = default currentCpuTask cpu_pass.1 /\
   g_cpuTaskQueues r.2 = cpu_pass.2) /\
  (currentIoTask <> IDLE_TASK_ID ->
   ioTask r.1 = currentIoTask /\ g_ioTaskQueues r.2 = g_ioTaskQueues st1).
Proof.
  cbv zeta. unfold policy.
  destruct (select_pass (g_cpuTaskQueues (fold_events st events)) all_levels _)
    as [chosenCpu cpu'].
  destruct (Z.eqb_spec currentIoTask IDLE_TASK_ID) as [Hidle | Hbusy].
  - destruct (select_pass (g_ioTaskQueues (fold_events st events)) all_levels
                (g_currentTime (fold_events st events))) as [chosenIo io'].
    cbn. split; [done | intros; contradiction].
  - cbn. by split.
Qed.

(** C7: with all eight levels empty and no event, the action is the pair
    of current occupants and the state does not change. *)
Theorem policy_idle (currentCpuTask currentIoTask now : Z) :
  let st := mkState now (replicate NUM_PRIORITY_QUEUES [])
                        (replicate NUM_PRIORITY_QUEUES []) in
  policy [] currentCpuTask currentIoTask st = (mkAction currentCpuTask currentIoTask, st).
Proof. cbv zeta. unfold policy. cbn. by destruct (Z.eqb currentIoTask IDLE_TASK_ID). Qed.

Lemma removeTaskFromQueues_take q (id : Z) :
  removeTaskFromQueues q id
  = (erase_id id <$> take NUM_PRIORITY_QUEUES q) ++ drop NUM_PRIORITY_QUEUES q.
Proof. by destruct q as [ | a [ | b [ | c [ | d q]]]]. Qed.

(** C9: removal by id is total, leaves an array that does not hold the id
    as it is, and is idempotent. *)
Theorem removeTaskFromQueues_idempotent q (id : Z) :
  (id ∉ queued_ids q -> removeTaskFromQueues q id = q) /\
  removeTaskFromQueues (removeTaskFromQueues q id) id = removeTaskFromQueues q id.
Proof.
  split.
  - intros Habs. rewrite removeTaskFromQueues_take.
    rewrite <- (take_drop NUM_PRIORITY_QUEUES q) at 3. f_equal.
    rewrite <- (list_fmap_id (take NUM_PRIORITY_QUEUES q)) at 2.
    apply list_fmap_ext. intros i v Hv. cbn. apply erase_id_absent.
    intros t Ht Heq. apply Habs. rewrite <- Heq. unfold queued_ids.
    apply list_elem_of_fmap_2.
    apply list_elem_of_join. exists v. split; [exact Ht |].
    apply list_elem_of_lookup_2 in Hv. rewrite <- (take_drop NUM_PRIORITY_QUEUES q).
    apply elem_of_app. by left.
  - rewrite !removeTaskFromQueues_take.
    destruct q as [ | a [ | b [ | c [ | d q]]]]; cbn; by rewrite ?erase_id_idemp.
Qed.

(** C10: a selection removes from the source level every entry that has
    the id of the selected task and appends the selected task itself, once
    and with its fields as they were, to the target level. *)
Theorem select_erases_id_appends_once q (fromLevel toLevel : nat) (now : Z) t q' :
  selectAndMigrateTask q fromLevel toLevel now = (Some t, q') ->
  fromLevel <> toLevel -> fromLevel < length q -> toLevel < length q ->
  t ∈ q !!! fromLevel /\
  q' !!! fromLevel = filter (fun u => taskId u <> taskId t) (q !!! fromLevel) /\
  (forall u, u ∈ q' !!! fromLevel -> taskId u <> taskId t) /\
  q' !!! toLevel = (q !!! toLevel) ++ [t] /\
  (forall j, j <> fromLevel -> j <> toLevel -> q' !!! j = q !!! j).
Proof.
  intros Hsel Hne Hf Ht. apply select_Some_inv in Hsel as [Hmin ->].
  destruct (migrate_lookup q fromLevel toLevel t Hne Hf Ht) as (Hfrom & Hto & Hoth).
  split; [by eapply first_minimal_elem |].
  split; [exact Hfrom |]. split; [ | split; [exact Hto | exact Hoth]].
  intros u Hu. rewrite Hfrom in Hu. by apply erase_id_spec in Hu as [? _].
Qed.



Lemma select_lone q (fromLevel toLevel : nat) (now : Z) t :
  q !!! fromLevel = [t] ->
  selectAndMigrateTask q fromLevel toLevel now
  = (Some t, push_back (<[fromLevel := []]> q) toLevel t).
Proof.
  intros Hq. unfold selectAndMigrateTask, scan_level. rewrite Hq.
  cbn [foldl]. unfold scan_step at 1. cbn [fst snd]. rewrite score_lt_max. cbn [fst].
  unfold erase_id. by rewrite filter_cons_False, filter_nil by (intros Hne; by apply Hne).
Qed.

Lemma select_pass_Some q (levels : list nat) (now id : Z) q' :
  select_pass q levels now = (Some id, q') ->
  exists done i rest t,
    levels = done ++ i :: rest /\
    (forall j, j ∈ done -> q !!! j = []) /\
    selectAndMigrateTask q i (next_level i) now = (Some t, q') /\
    taskId t = id.
Proof.
  induction levels as [ | i levels IH]; cbn [select_pass]; [discriminate |].
  destruct (selectAndMigrateTask q i (next_level i) now) as [[chosen | ] q1] eqn:Hsel.
  - intros [= <- <-]. exists [], i, levels, chosen. split; [reflexivity |].
    split; [intros j Hj; inversion Hj | by split].
  - apply select_None_inv in Hsel as [Hnil ->]. intros Hpass.
    destruct (IH Hpass) as (done & k & rest & t & -> & Hdone & Hk & Hid).
    exists (i :: done), k, rest, t. split; [reflexivity |].
    split; [ | by split].
    intros j Hj. apply elem_of_cons in Hj as [-> | Hj]; [exact Hnil | by apply Hdone].
Qed.

Lemma select_pass_None q (levels : list nat) (now : Z) q' :
  select_pass q levels now = (None, q') -> q' = q.
Proof.
  induction levels as [ | i levels IH]; cbn [select_pass]; [by intros [= <-] |].
  destruct (selectAndMigrateTask q i (next_level i) now) as [[chosen | ] q1] eqn:Hsel;
    [discriminate |].
  apply select_None_inv in Hsel as [_ ->]. exact IH.
Qed.

Lemma all_levels_split (done rest : list nat) (i : nat) :
  all_levels = done ++ i :: rest ->
  i < NUM_PRIORITY_QUEUES /\ next_level i = (i + 1) mod NUM_PRIORITY_QUEUES /\
  next_level i <> i /\ next_level i < NUM_PRIORITY_QUEUES /\
  forall j, j < i -> j ∈ done.
Proof.
  unfold all_levels, NUM_PRIORITY_QUEUES. cbn [seq]. intros Heq.
  destruct done as [ | a [ | b [ | c [ | d done]]]]; cbn in Heq.
  - injection Heq as <- _. repeat split; cbn; lia.
  - injection Heq as <- <- _. repeat split; try (cbn; lia); intros j Hj.
    assert (j = 0) as -> by lia. repeat constructor.
  - injection Heq as <- <- <- _. repeat split; try (cbn; lia); intros j Hj.
    assert (j = 0 \/ j = 1) as [-> | ->] by lia; repeat constructor.
  - injection Heq as <- <- <- <- _. repeat split; try (cbn; lia); intros j Hj.
    assert (j = 0 \/ j = 1 \/ j = 2) as [-> | [-> | ->]] by lia; repeat constructor.
  - injection Heq as _ _ _ _ Heq. by destruct done.
Qed.

(** C5: the task chosen by a pass is taken from the first non-empty level
    [i] and appended to level [(i+1) mod 4] of the same array, so it is
    still queued after the pass; a task alone in its array moves one level
    round the ring at every pass. *)
Theorem select_pass_ring :
  (forall q (now id : Z) q',
     wf_queues q -> select_pass q all_levels now = (Some id, q') ->
     exists i t,
       i < NUM_PRIORITY_QUEUES /\ (forall j, j < i -> q !!! j = []) /\
       t ∈ q !!! i /\ taskId t = id /\
       q' !!! i = filter (fun u => taskId u <> id) (q !!! i) /\
       q' !!! ((i + 1) mod NUM_PRIORITY_QUEUES)
         = (q !!! ((i + 1) mod NUM_PRIORITY_QUEUES)) ++ [t] /\
       (forall j, j <> i -> j <> (i + 1) mod NUM_PRIORITY_QUEUES -> q' !!! j = q !!! j) /\
       wf_queues q') /\
  (forall t (i : nat) (now : Z),
     i < NUM_PRIORITY_QUEUES ->
     select_pass (lone i t) all_levels now
     = (Some (taskId t), lone ((i + 1) mod NUM_PRIORITY_QUEUES) t)).
Proof.
  split.
  - intros q now id q' Hwf Hpass.
    destruct (select_pass_Some _ _ _ _ _ Hpass) as (done & i & rest & t & Hlv & Hdone & Hsel & Hid).
    destruct (all_levels_split _ _ _ Hlv) as (Hi & Hnext & Hne & Hn & Hbelow).
    rewrite Hnext in *. unfold wf_queues in *.
    apply select_Some_inv in Hsel as [Hmin ->].
    destruct (migrate_lookup q i ((i + 1) mod NUM_PRIORITY_QUEUES) t ltac:(congruence)
                ltac:(by rewrite Hwf) ltac:(by rewrite Hwf))
      as (Hfrom & Hto & Hoth).
    exists i, t. subst id.
    split; [exact Hi |]. split; [intros j Hj; by apply Hdone, Hbelow |].
    split; [by eapply first_minimal_elem |]. split; [reflexivity |].
    split; [exact Hfrom |]. split; [exact Hto |]. split; [exact Hoth |].
    by rewrite push_back_length, length_insert.
  - intros t i now Hi. unfold NUM_PRIORITY_QUEUES in Hi.
    destruct i as [ | [ | [ | [ | i]]]]; try lia;
      unfold all_levels, lone; cbn [seq NUM_PRIORITY_QUEUES select_pass];
      rewrite ?select_empty by reflexivity;
      by rewrite (select_lone _ _ _ _ t) by reflexivity.
Qed.

(** *** Queued ids under the queue operations *)

Lemma queued_ids_insert q (i : nat) (v : list Task) :
  i < length q ->
  exists pre post,
    queued_ids q = pre ++ (taskId <$> q !!! i) ++ post /\
    queued_ids (<[i := v]> q) = pre ++ (taskId <$> v) ++ post.
Proof.
  intros Hi. exists (taskId <$> mjoin (take i q)), (taskId <$> mjoin (drop (S i) q)).
  unfold queued_ids. split.
  - rewrite <- !fmap_app. f_equal.
    rewrite <- (take_drop_middle q i (q !!! i)) at 1
      by (by apply list_lookup_lookup_total_lt).
    by rewrite join_app.
  - rewrite insert_take_drop by exact Hi. rewrite <- !fmap_app. f_equal.
    by rewrite join_app.
Qed.

Lemma queued_ids_push_back q (level : nat) t :
  level < length q -> queued_ids (push_back q level t) ≡ₚ taskId t :: queued_ids q.
Proof.
  intros Hl. destruct (queued_ids_insert q level ((q !!! level) ++ [t]) Hl)
    as (pre & post & -> & Hins).
  unfold push_back. rewrite Hins, fmap_app. cbn [fmap list_fmap].
  rewrite <- app_assoc. cbn [app].
  rewrite !app_assoc. by rewrite <- Permutation_middle.
Qed.

Lemma ids_erase_id (id : Z) (v : list Task) :
  taskId <$> erase_id id v = filter (fun i => i <> id) (taskId <$> v).
Proof.
  unfold erase_id. induction v as [ | x v IH]; [reflexivity |].
  cbn [fmap list_fmap]. rewrite !filter_cons.
  destruct (decide (taskId x <> id)); cbn [fmap list_fmap]; by rewrite <- IH.
Qed.

Lemma queued_ids_erase_all q (id : Z) :
  queued_ids (erase_id id <$> q) = filter (fun i => i <> id) (queued_ids q).
Proof.
  unfold queued_ids. induction q as [ | v q IH]; [reflexivity |].
  cbn [fmap list_fmap mjoin list_join]. rewrite !fmap_app, filter_app, ids_erase_id.
  f_equal. exact IH.
Qed.

Lemma ids_filter_sublist (id : Z) (l : list Z) : filter (fun i => i <> id) l `sublist_of` l.
Proof. apply sublist_filter. Qed.

Lemma not_elem_of_filter_ne (id : Z) (l : list Z) : id ∉ filter (fun i => i <> id) l.
Proof. rewrite list_elem_of_filter. by intros [Hne _]. Qed.

Lemma filter_ne_absent (x : Z) (l : list Z) :
  x ∉ l -> filter (fun i => i <> x) l = l.
Proof.
  induction l as [ | z l IH]; intros Hx; [reflexivity |].
  apply not_elem_of_cons in Hx as [Hxz Hx].
  rewrite filter_cons_True by congruence. f_equal. by apply IH.
Qed.

(** In a list without duplicates, erasing [x] takes out just one entry. *)
Lemma NoDup_extract (x : Z) (l : list Z) :
  NoDup l -> x ∈ l -> l ≡ₚ x :: filter (fun i => i <> x) l.
Proof.
  induction l as [ | y l IH]; intros Hnd Hx; [inversion Hx |].
  apply NoDup_cons in Hnd as [Hy Hnd].
  destruct (decide (y = x)) as [-> | Hne].
  - rewrite filter_cons_False by (intros Hne; by apply Hne).
    by rewrite filter_ne_absent.
  - apply elem_of_cons in Hx as [-> | Hx]; [congruence |].
    rewrite filter_cons_True by exact Hne.
    rewrite (IH Hnd Hx) at 1. apply perm_swap.
Qed.

(** A migration permutes the ids of an array without duplicates. *)
Lemma select_ids_perm q (fromLevel toLevel : nat) (now : Z) t q' :
  selectAndMigrateTask q fromLevel toLevel now = (Some t, q') ->
  fromLevel < length q -> toLevel < length q ->
  NoDup (queued_ids q) -> queued_ids q' ≡ₚ queued_ids q.
Proof.
  intros Hsel Hf Ht Hnd. apply select_Some_inv in Hsel as [Hmin ->].
  rewrite queued_ids_push_back by (by rewrite length_insert).
  destruct (queued_ids_insert q fromLevel (erase_id (taskId t) (q !!! fromLevel)) Hf)
    as (pre & post & Hq & ->).
  rewrite Hq in Hnd |- *. rewrite ids_erase_id.
  assert (NoDup (taskId <$> q !!! fromLevel)) as HndI.
  { apply NoDup_app in Hnd as (_ & _ & Hnd). by apply NoDup_app in Hnd as (Hnd & _). }
  assert (taskId t ∈ taskId <$> q !!! fromLevel) as Hin
    by (apply list_elem_of_fmap_2; by eapply first_minimal_elem).
  rewrite (NoDup_extract _ _ HndI Hin) at 2. cbn [app].
  by rewrite <- Permutation_middle.
Qed.

Lemma select_pass_ids_perm q (now : Z) (chosen : option Z) q' :
  wf_queues q -> select_pass q all_levels now = (chosen, q') ->
  NoDup (queued_ids q) -> wf_queues q' /\ queued_ids q' ≡ₚ queued_ids q.
Proof.
  intros Hwf Hpass Hnd. destruct chosen as [id | ].
  - destruct (select_pass_Some _ _ _ _ _ Hpass) as (done & i & rest & t & Hlv & _ & Hsel & _).
    destruct (all_levels_split _ _ _ Hlv) as (Hi & _ & _ & Hn & _).
    unfold wf_queues in *. split.
    + apply select_Some_inv in Hsel as [_ ->]. by rewrite push_back_length, length_insert.
    + eapply select_ids_perm; [exact Hsel | by rewrite Hwf | by rewrite Hwf | exact Hnd].
  - apply select_pass_None in Hpass as ->. by split.
Qed.

Lemma removeTaskFromQueues_wf q (id : Z) :
  wf_queues q -> wf_queues (removeTaskFromQueues q id).
Proof.
  unfold wf_queues. intros Hwf.
  rewrite removeTaskFromQueues_fmap by (by rewrite Hwf). by rewrite length_fmap.
Qed.

Lemma entry_level_lt (p : Priority.t) : entry_level p < NUM_PRIORITY_QUEUES.
Proof. unfold NUM_PRIORITY_QUEUES. destruct p; cbn; lia. Qed.

Lemma fold_event_wf st (ev : Event) : wf_state st -> wf_state (fold_event st ev).
Proof.
  intros [Hcpu Hio]. unfold fold_event, wf_state, wf_queues.
  destruct (type ev); cbn [g_cpuTaskQueues g_ioTaskQueues];
    rewrite ?push_back_length; repeat split;
    try assumption; by apply removeTaskFromQueues_wf.
Qed.

Lemma fold_event_unique st (ev : Event) :
  wf_state st -> event_ok st ev -> unique_ids st -> unique_ids (fold_event st ev).
Proof.
  intros [Hcpu Hio] Hok Hnd. unfold unique_ids, fold_event, event_ok in *.
  pose proof (entry_level_lt (priority (task ev))) as Hlvl.
  unfold wf_queues in *.
  destruct (type ev); cbn [g_cpuTaskQueues g_ioTaskQueues].
  - exact Hnd.
  - destruct Hok as [Hc Hi].
    rewrite queued_ids_push_back by (by rewrite Hcpu). cbn [app].
    apply NoDup_cons. split; [ | exact Hnd].
    rewrite elem_of_app. by intros [? | ?].
  - rewrite removeTaskFromQueues_fmap, queued_ids_erase_all by (by rewrite Hcpu).
    eapply sublist_NoDup; [exact Hnd |].
    apply sublist_app; [apply ids_filter_sublist | reflexivity].
  - rewrite removeTaskFromQueues_fmap, queued_ids_erase_all by (by rewrite Hcpu).
    rewrite queued_ids_push_back by (by rewrite Hio).
    rewrite <- Permutation_middle. apply NoDup_cons. split.
    + rewrite elem_of_app. intros [Hin | Hin]; [ | by apply Hok].
      by apply not_elem_of_filter_ne in Hin.
    + eapply sublist_NoDup; [exact Hnd |].
      apply sublist_app; [apply ids_filter_sublist | reflexivity].
  - rewrite removeTaskFromQueues_fmap, queued_ids_erase_all by (by rewrite Hio).
    rewrite queued_ids_push_back by (by rewrite Hcpu). cbn [app].
    apply NoDup_cons. split.
    + rewrite elem_of_app. intros [Hin | Hin]; [by apply Hok |].
      by apply not_elem_of_filter_ne in Hin.
    + eapply sublist_NoDup; [exact Hnd |].
      apply sublist_app; [reflexivity | apply ids_filter_sublist].
Qed.

Lemma fold_events_unique (events : list Event) st :
  wf_state st -> batch_ok st events -> unique_ids st ->
  wf_state (fold_events st events) /\ unique_ids (fold_events st events).
Proof.
  revert st. induction events as [ | ev events IH]; intros st Hwf Hok Hnd; [by split |].
  destruct Hok as [Hev Hrest]. cbn [fold_events foldl].
  apply IH; [by apply fold_event_wf | exact Hrest | by apply fold_event_unique].
Qed.

Lemma policy_unique (events : list Event) (currentCpuTask currentIoTask : Z) st :
  wf_state st -> batch_ok st events -> unique_ids st ->
  wf_state (policy events currentCpuTask currentIoTask st).2 /\
  unique_ids (policy events currentCpuTask currentIoTask st).2.
Proof.
  intros Hwf Hok Hnd.
  destruct (fold_events_unique events st Hwf Hok Hnd) as [[Hcpu Hio] Hnd1].
  unfold policy. set (st1 := fold_events st events) in *.
  destruct (select_pass (g_cpuTaskQueues st1) all_levels (g_currentTime st1))
    as [chosenCpu cpu'] eqn:Hc.
  unfold unique_ids in Hnd1.
  apply select_pass_ids_perm in Hc as [Hcpu' Hpc];
    [ | exact Hcpu | by apply NoDup_app in Hnd1 as (? & _)].
  assert (exists chosenIo io',
            (if Z.eqb currentIoTask IDLE_TASK_ID
             then select_pass (g_ioTaskQueues st1) all_levels (g_currentTime st1)
             else (None, g_ioTaskQueues st1)) = (chosenIo, io') /\
            wf_queues io' /\ queued_ids io' ≡ₚ queued_ids (g_ioTaskQueues st1))
    as (chosenIo & io' & -> & Hio' & Hpi).
  { destruct (Z.eqb currentIoTask IDLE_TASK_ID).
    - destruct (select_pass (g_ioTaskQueues st1) all_levels (g_currentTime st1))
        as [chosenIo io'] eqn:Hi.
      exists chosenIo, io'. split; [reflexivity |].
      apply select_pass_ids_perm in Hi; [exact Hi | exact Hio |].
      by apply NoDup_app in Hnd1 as (_ & _ & ?).
    - by exists None, (g_ioTaskQueues st1). }
  cbn [snd]. split; [by split |].
  unfold unique_ids. cbn [g_cpuTaskQueues g_ioTaskQueues]. by rewrite Hpc, Hpi.
Qed.

(** C8 (as amended): as long as every batch respects the life cycle of its
    tasks (no Arrival for an id that is queued, no IoRequest for an id
    queued for IO, no IoEnd for an id queued for the CPU), every reachable
    state keeps its four levels per array and holds each id at most once
    over both arrays. *)
Theorem reachable_ok_unique st : reachable_ok st -> wf_state st /\ unique_ids st.
Proof.
  induction 1 as [ | st events c io Hreach [Hwf Hnd] Hok].
  - split; [by split |]. unfold unique_ids. cbn. apply NoDup_nil_2.
  - by apply policy_unique.
Qed.

End Claims.

(** ** Examples, counterexamples and instances *)

Section Examples.
Import Binary64.

(** The constants are the binary64 values of [1.0] and [1e5], and the
    nearest binary64 number to [2/5]. *)
Example constants_exact :
  of_int 1 = REGULAR_TASK_PRIORITY_FACTOR /\
  of_int 100000 = OVERDUE_PENALTY_SCORE /\
  (2 * Z.abs (5 * 7205759403792794 - 2 * 2 ^ 54) <=? 5)%Z = true.
Proof. vm_compute. repeat split. Qed.

(** The example of the specification: task 5 is chosen and moves to
    level 1, the overdue task 7 stays at level 0. *)
Example spec_example :
  policy [] 0 0 example_state
  = (mkAction 5 0, mkState 5 [[task7]; [task5]; []; []] [[]; []; []; []]).
Proof. vm_compute. reflexivity. Qed.

(** The boundary of the separation, for a boosted task: with the overdue
    task due now (score 100000), a boosted gap of 249999 scores below it
    and a boosted gap of 250000 (score exactly 100000) does not. *)
Example boosted_boundary :
  ltb (score (mkTask 4 Priority.kHigh 249999 Status.kIoEnd) 0) (score due_now 0) = true /\
  ltb (score (mkTask 4 Priority.kHigh 250000 Status.kIoEnd) 0) (score due_now 0) = false /\
  score (mkTask 4 Priority.kHigh 250000 Status.kIoEnd) 0 = of_int 100000.
Proof. vm_compute. repeat split. Qed.

(** C1, counterexample: at time 0 the on-time task due in 200000 ticks does
    not score below the overdue task due now (it scores above it); and of
    the two overdue tasks, the one due 10 ticks ago scores below the one
    due now, although the latter is the closest to the clock. *)
Lemma overdue_score_not_above :
  (deadline due_now <=? 0)%Z = true /\ (0 <? deadline due_far)%Z = true /\
  ltb (score due_far 0) (score due_now 0) = false /\
  ltb (score due_now 0) (score due_far 0) = true /\
  (deadline due_past <? deadline due_now)%Z = true /\
  ltb (score due_past 0) (score due_now 0) = true.
Proof. vm_compute. repeat split. Qed.

(** C2, counterexample: task 2 has been selected and migrated once since
    its IoEnd, yet its entry still has status JustFinishedIO, its score is
    not the score of a Normal task, and in the next pass, thanks to the
    0.4 factor, it is chosen ahead of task 1 whose deadline is earlier. *)
Lemma io_boost_outlives_selection :
  g_cpuTaskQueues after_io_end
  = [[]; [worker; io_ended]; []; []] /\
  score io_ended 0 = of_int 40 /\
  score io_task 0 = of_int 100 /\
  score worker 0 = of_int 50 /\
  (policy [] 2 0 after_io_end).1 = mkAction 2 0.
Proof. vm_compute. repeat split. Qed.

(** C8, counterexample: after two calls that each carry an Arrival of
    task 1, level 1 of the CPU array holds task 1 twice. *)
Lemma duplicate_arrival_reachable :
  reachable twice_arrived /\
  g_cpuTaskQueues twice_arrived = [[]; [worker; worker]; []; []] /\
  ~ unique_ids twice_arrived.
Proof.
  split; [ | split].
  - unfold twice_arrived. apply reachable_call, reachable_call, reachable_init.
  - vm_compute. reflexivity.
  - unfold unique_ids.
    replace (queued_ids (g_cpuTaskQueues twice_arrived)
             ++ queued_ids (g_ioTaskQueues twice_arrived)) with [1%Z; 1%Z]
      by (vm_compute; reflexivity).
    intros Hnd. apply NoDup_cons in Hnd as [Hnotin _]. apply Hnotin. by left.
Qed.

Lemma overdue_score_order_witness :
  int_range (deadline task5 - 5) /\ int_range (deadline task7 - 5) /\
  (deadline task7 <= 5)%Z /\
  ltb (score task5 5) (score task7 5) = true.
Proof.
  assert (int_range (deadline task5 - 5)) as H1
    by (unfold int_range, INT_MIN, INT_MAX; cbn; lia).
  assert (int_range (deadline task7 - 5)) as H2
    by (unfold int_range, INT_MIN, INT_MAX; cbn; lia).
  assert (deadline task7 <= 5)%Z as H3 by (cbn; lia).
  split; [exact H1 | split; [exact H2 | split; [exact H3 |]]].
  rewrite (proj1 (overdue_score_order 5 task5 task7 H1 H2 H3)) by (cbn; lia).
  reflexivity.
Defined.

Lemma select_keeps_io_boost_witness :
  selectAndMigrateTask [[io_ended]; []; []; []] 0 1 0
    = (Some io_ended, [[]; [io_ended]; []; []]) /\
  1 < length [[io_ended]; []; []; []] /\
  status io_ended = Status.kIoEnd /\
  score io_ended 7 = mul IO_END_PRIORITY_BOOST_FACTOR (of_int (int_sub (deadline io_ended) 7)).
Proof.
  assert (selectAndMigrateTask [[io_ended]; []; []; []] 0 1 0
          = (Some io_ended, [[]; [io_ended]; []; []])) as H1 by (vm_compute; reflexivity).
  assert (1 < length [[io_ended]; []; []; []]) as H2 by (cbn; lia).
  assert (status io_ended = Status.kIoEnd) as H3 by reflexivity.
  split; [exact H1 | split; [exact H2 | split; [exact H3 |]]].
  apply (select_keeps_io_boost _ _ _ _ _ _ H1 H2 H3). cbn. lia.
Defined.

Lemma fold_event_io_end_witness :
  type io_end_event = EventType.kIoEnd /\ wf_state initial_state /\
  g_cpuTaskQueues (fold_event initial_state io_end_event) !!! 0 = [io_ended] /\
  g_currentTime (fold_event initial_state io_end_event) = 3%Z.
Proof.
  assert (type io_end_event = EventType.kIoEnd) as H1 by reflexivity.
  assert (wf_state initial_state) as H2 by (split; reflexivity).
  split; [exact H1 | split; [exact H2 |]].
  pose proof (fold_event_io_end initial_state io_end_event H1 H2) as H.
  cbv zeta in H. destruct H as (_ & _ & Hcpu & _ & _ & Htime).
  split; [exact Hcpu | exact Htime].
Defined.

Lemma select_first_minimal_witness :
  g_cpuTaskQueues example_state !!! 0 <> [] /\
  exists t q', selectAndMigrateTask (g_cpuTaskQueues example_state) 0 1 5 = (Some t, q') /\
               t ∈ g_cpuTaskQueues example_state !!! 0.
Proof.
  assert (g_cpuTaskQueues example_state !!! 0 <> []) as H1 by (cbn; discriminate).
  split; [exact H1 |].
  destruct (select_first_minimal (g_cpuTaskQueues example_state) 0 1 5 H1)
    as [(t & q' & Hsel & Hin & _) _].
  exists t, q'. split; [exact Hsel | exact Hin].
Defined.

Lemma select_pass_ring_witness :
  wf_queues (g_cpuTaskQueues example_state) /\
  select_pass (g_cpuTaskQueues example_state) all_levels 5
    = (Some 5%Z, [[task7]; [task5]; []; []]) /\
  exists i t, i < NUM_PRIORITY_QUEUES /\ t ∈ g_cpuTaskQueues example_state !!! i /\
              taskId t = 5%Z.
Proof.
  assert (wf_queues (g_cpuTaskQueues example_state)) as H1 by reflexivity.
  assert (select_pass (g_cpuTaskQueues example_state) all_levels 5
          = (Some 5%Z, [[task7]; [task5]; []; []])) as H2 by (vm_compute; reflexivity).
  split; [exact H1 | split; [exact H2 |]].
  destruct (proj1 select_pass_ring _ _ _ _ H1 H2) as (i & t & Hi & _ & Hin & Hid & _).
  exists i, t. split; [exact Hi | split; [exact Hin | exact Hid]].
Defined.

Lemma policy_io_busy_witness :
  7%Z <> IDLE_TASK_ID /\
  ioTask (policy [] 0 7 example_state).1 = 7%Z /\
  g_ioTaskQueues (policy [] 0 7 example_state).2
  = g_ioTaskQueues (fold_events example_state []).
Proof.
  assert (7%Z <> IDLE_TASK_ID) as H1 by (unfold IDLE_TASK_ID; lia).
  split; [exact H1 |].
  exact (proj2 (policy_io_busy [] 0 7 example_state) H1).
Defined.

Lemma reachable_ok_unique_witness :
  reachable_ok once_arrived /\ wf_state once_arrived /\ unique_ids once_arrived.
Proof.
  assert (reachable_ok once_arrived) as H1.
  { unfold once_arrived. apply reachable_ok_call; [apply reachable_ok_init |].
    cbn. split; [ | exact I]. split; apply not_elem_of_nil. }
  split; [exact H1 |]. exact (reachable_ok_unique once_arrived H1).
Defined.

Lemma removeTaskFromQueues_idempotent_witness :
  (9%Z ∉ queued_ids (g_cpuTaskQueues example_state)) /\
  removeTaskFromQueues (g_cpuTaskQueues example_state) 9 = g_cpuTaskQueues example_state.
Proof.
  assert (9%Z ∉ queued_ids (g_cpuTaskQueues example_state)) as H1.
  { cbn. intros Hin. apply elem_of_cons in Hin as [Hin | Hin]; [discriminate |].
    apply elem_of_cons in Hin as [Hin | Hin]; [discriminate | inversion Hin]. }
  split; [exact H1 |].
  exact (proj1 (removeTaskFromQueues_idempotent (g_cpuTaskQueues example_state) 9) H1).
Defined.

Lemma select_erases_id_appends_once_witness :
  selectAndMigrateTask (g_cpuTaskQueues example_state) 0 1 5
    = (Some task5, [[task7]; [task5]; []; []]) /\
  0 <> 1 /\ 0 < length (g_cpuTaskQueues example_state) /\
  1 < length (g_cpuTaskQueues example_state) /\
  [[task7]; [task5]; []; []] !!! 1 = (g_cpuTaskQueues example_state !!! 1) ++ [task5].
Proof.
  assert (selectAndMigrateTask (g_cpuTaskQueues example_state) 0 1 5
          = (Some task5, [[task7]; [task5]; []; []])) as H1 by (vm_compute; reflexivity).
  assert (0 <> 1) as H2 by lia.
  assert (0 < length (g_cpuTaskQueues example_state)) as H3 by (cbn; lia).
  assert (1 < length (g_cpuTaskQueues example_state)) as H4 by (cbn; lia).
  split; [exact H1 | split; [exact H2 | split; [exact H3 | split; [exact H4 |]]]].
  destruct (select_erases_id_appends_once _ _ _ _ _ _ H1 H2 H3 H4) as (_ & _ & _ & Hto & _).
  exact Hto.
Defined.

End Examples.

(** ** Further properties of the scores *)

Section ScoreOrder.
Import Binary64 Binary64Facts.
Local Open Scope Z_scope.

(** When less than half a unit is shifted out, rounding to nearest keeps
    the quotient. *)
Lemma round_aux_below_half (s : bool) (M n : positive) (E : Z) :
  Zpos (digits2_pos M) = 53 + Zpos n ->
  -1074 <= E + Zpos n -> E + Zpos n <= 971 ->
  2 * (Zpos M mod 2 ^ Zpos n) < 2 ^ Zpos n ->
  canonical (binary_round_aux prec emax s (Zpos M) E loc_Exact) /\
  sval (binary_round_aux prec emax s (Zpos M) E loc_Exact)
  = (if s then -1 else 1) * (Zpos M / 2 ^ Zpos n * 2 ^ (E + Zpos n + 1074)).
Proof.
  intros HD Hlo Hhi Hhalf.
  pose proof (digits2_pos_bounds M) as [Mlo Mhi]. rewrite HD in Mlo, Mhi.
  assert (0 < 2 ^ Zpos n) as Hpn by (apply Z.pow_pos_nonneg; lia).
  replace (53 + Zpos n - 1) with (52 + Zpos n) in Mlo by lia.
  rewrite Z.pow_add_r in Mlo, Mhi by lia.
  assert (2 ^ 52 <= Zpos M / 2 ^ Zpos n < 2 ^ 53) as Hq.
  { split; [apply Z.div_le_lower_bound; lia | apply Z.div_lt_upper_bound; lia]. }
  unfold binary_round_aux, shr_fexp. cbn [Zdigits2]. rewrite HD.
  assert (fexp prec emax (53 + Zpos n + E) = E + Zpos n) as -> by (unfold fexp, emin, prec, emax; lia).
  replace (E + Zpos n - E) with (Zpos n) by lia.
  cbn [shr shr_record_of_loc].
  assert (exists s0, SpecFloat.iter_pos shr_1 n (Build_shr_record (Zpos M) false false)
                     = Build_shr_record (Zpos M / 2 ^ Zpos n) false s0) as [s0 ->].
  { rewrite iter_pos_iter.
    destruct (Pos.eq_dec n 1%positive) as [-> | Hn1].
    - cbn [Pos.iter]. rewrite shr_1_nonneg by lia. change (2 ^ 1) with 2 in *.
      exists false. f_equal. rewrite Zmod_odd in Hhalf. destruct (Z.odd (Zpos M)); [lia | reflexivity].
    - destruct (Pos.succ_pred_or n) as [-> | Hsp]; [congruence |].
      set (p := Pos.pred n) in *. rewrite <- Hsp in *. clear Hsp Hn1.
      rewrite Pos.iter_succ. rewrite <- iter_pos_iter.
      pose proof (shr_iter_spec (Zpos M) p ltac:(lia)) as [Hm _]. cbv zeta in Hm.
      destruct (SpecFloat.iter_pos shr_1 p _) as [m r0 s1]. cbn [shr_m] in Hm.
      assert (0 < 2 ^ Zpos p) as Hpp by (apply Z.pow_pos_nonneg; lia).
      assert (0 <= m) by (subst m; apply Z.div_pos; lia).
      rewrite shr_1_nonneg by assumption. exists (r0 || s1).
      rewrite Pos2Z.inj_succ, Z.pow_succ_r in * by lia.
      assert (Zpos M mod (2 * 2 ^ Zpos p) = 2 ^ Zpos p * (m mod 2) + Zpos M mod 2 ^ Zpos p) as Hmod.
      { symmetry. apply Z.mod_unique with (m / 2).
        - left. pose proof (Z.mod_pos_bound m 2 ltac:(lia)).
          pose proof (Z.mod_pos_bound (Zpos M) (2 ^ Zpos p) ltac:(lia)). nia.
        - pose proof (Z.div_mod (Zpos M) (2 ^ Zpos p) ltac:(lia)) as Hdm.
          rewrite <- Hm in Hdm. pose proof (Z.div_mod m 2 ltac:(lia)). nia. }
      f_equal.
      + subst m. rewrite Z.div_div by lia. f_equal. lia.
      + rewrite Hmod, Zmod_odd in Hhalf.
        pose proof (Z.mod_pos_bound (Zpos M) (2 ^ Zpos p) ltac:(lia)).
        destruct (Z.odd m); [nia | reflexivity]. }
  set (q := Zpos M / 2 ^ Zpos n) in *.
  assert (round_nearest_even q (loc_of_shr_record (Build_shr_record q false s0)) = q) as Hr
    by (by destruct s0).
  cbn [shr_m]. rewrite Hr.
  destruct q as [ | pq | pq]; try lia.
  assert (Zpos (digits2_pos pq) = 53) as Hd by (apply digits2_pos_unique; lia).
  cbn [Zdigits2]. rewrite Hd.
  assert (fexp prec emax (53 + (E + Zpos n)) = E + Zpos n) as ->
    by (unfold fexp, emin, prec, emax; lia).
  rewrite Z.sub_diag. cbn [shr shr_record_of_loc shr_m].
  replace (E + Zpos n <=? emax - prec) with true
    by (symmetry; apply Z.leb_le; unfold emax, prec; lia).
  split; [split; [exact Hd | lia] | reflexivity].
Qed.

(** The boosted score of a positive gap [d] is within [2^-22] of
    [c * d], where [c] is the binary64 number written [0.4]. *)
Lemma boost_error (d : Z) :
  0 < d < 2 ^ 31 ->
  7205759403792794 * d * 2 ^ 1020 - 2 ^ 1052
  <= sval (mul IO_END_PRIORITY_BOOST_FACTOR (of_int d))
  <= 7205759403792794 * d * 2 ^ 1020 + 2 ^ 1052.
Proof.
  intros Hd.
  destruct (of_int_32 d ltac:(lia) ltac:(lia)) as (m & e & -> & Hn & He & Hm).
  replace (d <? 0) with false by (symmetry; apply Z.ltb_ge; lia).
  unfold IO_END_PRIORITY_BOOST_FACTOR.
  destruct (mul_finite_spec false false 7205759403792794 m (-54) e IO_END_normal Hn
              ltac:(lia) ltac:(lia))
    as (n & r & Hn' & [Mlo Mhi] & Hr & _ & ->).
  cbn [xorb]. rewrite Z.abs_eq in Hm by lia.
  set (H := 2 ^ (e + 1020)).
  assert (0 < H) as HH by (apply Z.pow_pos_nonneg; lia).
  assert (0 < 2 ^ Zpos n) as Hpn by (apply Z.pow_pos_nonneg; lia).
  assert (2 ^ (-54 + e + Zpos n + 1074) = 2 ^ Zpos n * H) as ->.
  { subst H. rewrite <- Z.pow_add_r by lia. f_equal. lia. }
  assert (d * 2 ^ 1020 = Zpos m * H) as Hd1020.
  { rewrite Hm. subst H. rewrite <- Z.mul_assoc, <- Z.pow_add_r by lia.
    f_equal. f_equal. lia. }
  replace (7205759403792794 * d * 2 ^ 1020) with (7205759403792794 * Zpos m * H)
    by (rewrite <- !Z.mul_assoc, Hd1020; reflexivity).
  assert (2 ^ Zpos n * H <= 2 ^ 1052) as HG.
  { subst H. rewrite <- Z.pow_add_r by lia. apply Z.pow_le_mono_r; lia. }
  set (M := 7205759403792794 * Zpos m) in *.
  pose proof (Z.div_mod M (2 ^ Zpos n) ltac:(lia)) as Hdm.
  pose proof (Z.mod_pos_bound M (2 ^ Zpos n) ltac:(lia)) as Hmb.
  destruct Hr as [-> | [-> _]]; nia.
Qed.

(** Against an integer, the other way round: [N] is below the boosted
    score of [d] exactly when [5 N < 2 d]. *)
Lemma int_lt_boost (d N : Z) :
  0 < d < 2 ^ 31 -> - 2 ^ 33 <= N <= 2 ^ 33 ->
  ltb (of_int N) (mul IO_END_PRIORITY_BOOST_FACTOR (of_int d)) = (5 * N <? 2 * d).
Proof.
  intros Hd HN.
  destruct (mul_boost d ltac:(lia)) as [Hcb _].
  destruct (of_int_spec N ltac:(lia)) as [HcN HvN].
  pose proof (boost_lt_int d N Hd HN) as Hlt.
  rewrite (ltb_sval _ _ Hcb HcN), HvN in Hlt.
  rewrite (ltb_sval _ _ HcN Hcb), HvN. clear Hcb HcN HvN.
  destruct (Z.lt_trichotomy (5 * N) (2 * d)) as [Hl | [He | Hg]].
  - (* N is at least a fifth below: use the error bound *)
    pose proof (boost_error d Hd) as [Hlo _].
    replace (5 * N <? 2 * d) with true by (symmetry; apply Z.ltb_lt; lia).
    apply Z.ltb_lt.
    assert (0 < 2 ^ 1020) as HX by (apply Z.pow_pos_nonneg; lia).
    change (2 ^ 1052) with (2 ^ 32 * 2 ^ 1020) in Hlo.
    change (2 ^ 1074) with (2 ^ 54 * 2 ^ 1020).
    set (X := 2 ^ 1020) in *. nia.
  - (* the tie: the product is exact *)
    replace (5 * N <? 2 * d) with false by (symmetry; apply Z.ltb_ge; lia).
    apply Z.ltb_ge. clear Hlt.
    destruct (of_int_32 d ltac:(lia) ltac:(lia)) as (m & e & -> & Hn & Hr & Hm).
    replace (d <? 0) with false by (symmetry; apply Z.ltb_ge; lia).
    rewrite Z.abs_eq in Hm by lia. pose proof Hn as [Dm Re].
    pose proof (digits2_pos_bounds m) as [mlo mhi]. rewrite Dm in mlo, mhi.
    unfold prec in mlo, mhi. change (2 ^ (53 - 1)) with (2 ^ 52) in mlo.
    set (u := 2 ^ (- e)) in *.
    assert (0 < u) as Hu by (apply Z.pow_pos_nonneg; lia).
    set (P := N * u).
    assert (5 * P = 2 * Zpos m) as HP by (subst P; nia).
    unfold IO_END_PRIORITY_BOOST_FACTOR, mul. cbn [SFmul xorb]. rewrite Pos2Z.inj_mul.
    assert (Zpos 7205759403792794 * Zpos m = 2 ^ 54 * P + P) as HM by lia.
    assert (0 < P < 2 ^ 52) as HPb by lia.
    assert (forall n : positive,
              2 ^ (52 + Zpos n) <= 2 ^ 54 * P + P < 2 ^ (53 + Zpos n) ->
              Zpos n = 52 \/ Zpos n = 53) as Hcases.
    { intros n [Hl Hh].
      destruct (Z.lt_trichotomy (Zpos n) 52) as [Hlt | [Heq | Hgt]]; [ | by left | ].
      - assert (2 ^ (53 + Zpos n) <= 2 ^ 104) by (apply Z.pow_le_mono_r; lia). lia.
      - destruct (Z.eq_dec (Zpos n) 53); [by right |].
        assert (2 ^ 106 <= 2 ^ (52 + Zpos n)) by (apply Z.pow_le_mono_r; lia). lia. }
    pose proof (digits2_pos_bounds (7205759403792794 * m)) as [Dlo Dhi].
    rewrite Pos2Z.inj_mul in Dlo, Dhi.
    assert (104 < Zpos (digits2_pos (7205759403792794 * m))) as HD104.
    { destruct (Z.le_gt_cases (Zpos (digits2_pos (7205759403792794 * m))) 104); [ | lia].
      assert (2 ^ Zpos (digits2_pos (7205759403792794 * m)) <= 2 ^ 104)
        by (apply Z.pow_le_mono_r; lia).
      lia. }
    destruct (Zpos (digits2_pos (7205759403792794 * m)) - 53) as [ | n | n] eqn:Hn';
      [lia | | lia].
    assert (Zpos (digits2_pos (7205759403792794 * m)) = 53 + Zpos n) as HDn by lia.
    rewrite HDn in Dlo, Dhi. replace (53 + Zpos n - 1) with (52 + Zpos n) in Dlo by lia.
    rewrite HM in Dlo, Dhi. pose proof (Hcases n (conj Dlo Dhi)) as Hn52.
    rewrite <- Pos2Z.inj_mul.
    assert (2 * (Zpos (7205759403792794 * m) mod 2 ^ Zpos n) < 2 ^ Zpos n /\
            Zpos (7205759403792794 * m) / 2 ^ Zpos n = 2 ^ (54 - Zpos n) * P) as [Hhalf Hquo].
    { rewrite Pos2Z.inj_mul, HM.
      destruct Hn52 as [Hv | Hv]; rewrite Hv in *;
        [change (2 ^ (54 - 52)) with 4 | change (2 ^ (54 - 53)) with 2];
        change (2 ^ (52 + 52)) with (2 ^ 104) in *; change (2 ^ (53 + 52)) with (2 ^ 105) in *;
        change (2 ^ (52 + 53)) with (2 ^ 105) in *; change (2 ^ (53 + 53)) with (2 ^ 106) in *;
        clear - HPb Dlo Dhi; Z.to_euclidean_division_equations; lia. }
    destruct (round_aux_below_half false (7205759403792794 * m) n (-54 + e) HDn
                ltac:(lia) ltac:(lia) Hhalf) as [_ ->].
    rewrite Hquo.
    assert (2 ^ 1074 = 2 ^ (-54 + e + Zpos n + 1074) * (2 ^ (54 - Zpos n) * u)) as ->.
    { subst u. rewrite <- !Z.pow_add_r by lia. f_equal. lia. }
    subst P. lia.
  - replace (5 * N <? 2 * d) with false by (symmetry; apply Z.ltb_ge; lia).
    replace (2 * d <? 5 * N) with true in Hlt by (symmetry; apply Z.ltb_lt; lia).
    apply Z.ltb_lt in Hlt. apply Z.ltb_ge. lia.
Qed.

Lemma boost_mono (d1 d2 : Z) :
  0 < d1 < 2 ^ 31 -> 0 < d2 < 2 ^ 31 -> d1 < d2 ->
  sval (mul IO_END_PRIORITY_BOOST_FACTOR (of_int d1))
  < sval (mul IO_END_PRIORITY_BOOST_FACTOR (of_int d2)).
Proof.
  intros H1 H2 Hlt.
  pose proof (boost_error d1 H1) as [_ Hhi]. pose proof (boost_error d2 H2) as [Hlo _].
  assert (0 < 2 ^ 1020) as HX by (apply Z.pow_pos_nonneg; lia).
  change (2 ^ 1052) with (2 ^ 32 * 2 ^ 1020) in *.
  set (X := 2 ^ 1020) in *. nia.
Qed.

Lemma score_on_time_boosted (t : Task) (now : Z) :
  now < deadline t -> status t = Status.kIoEnd -> int_range (deadline t - now) ->
  score t now = mul IO_END_PRIORITY_BOOST_FACTOR (of_int (deadline t - now)).
Proof.
  intros Hon Hst Hr. unfold score, int_sub.
  replace (now <? deadline t) with true by (symmetry; by apply Z.ltb_lt).
  by rewrite Hst, (int_wrap_id _ Hr).
Qed.

(** X15: among on-time tasks of one status the earlier deadline scores
    strictly lower, for the factor [1.0] and, rounding included, for the
    factor [0.4]; equal deadlines score the same. *)
Theorem on_time_deadline_order (now : Z) (a b : Task) :
  now < deadline a -> now < deadline b -> status a = status b ->
  int_range (deadline a - now) -> int_range (deadline b - now) ->
  ltb (score a now) (score b now) = (deadline a <? deadline b).
Proof.
  intros Ha Hb Hst Hra Hrb. rewrite ltb_score.
  destruct (status b) eqn:Hsb.
  - rewrite (score_on_time_regular a now Ha Hst Hra), (score_on_time_regular b now Hb Hsb Hrb).
    assert (0 < 2 ^ 1074) as Hp by (apply Z.pow_pos_nonneg; lia).
    destruct (Z.ltb_spec (deadline a) (deadline b)); [apply Z.ltb_lt | apply Z.ltb_ge]; nia.
  - rewrite (score_on_time_boosted a now Ha Hst Hra), (score_on_time_boosted b now Hb Hsb Hrb).
    unfold int_range, INT_MIN, INT_MAX in Hra, Hrb.
    destruct (Z.lt_trichotomy (deadline a) (deadline b)) as [Hlt | [Heq | Hgt]].
    + replace (deadline a <? deadline b) with true by (symmetry; apply Z.ltb_lt; lia).
      apply Z.ltb_lt. apply boost_mono; lia.
    + rewrite Heq, !Z.ltb_irrefl. reflexivity.
    + replace (deadline a <? deadline b) with false by (symmetry; apply Z.ltb_ge; lia).
      apply Z.ltb_ge. apply Z.lt_le_incl. apply boost_mono; lia.
Qed.

(** X16: an on-time task with the IO boost against an on-time task without
    it.  The boosted task scores strictly lower exactly when twice its gap
    is below five times the other gap, strictly higher exactly when it is
    above; when [2 * gap = 5 * gap'] the two scores are equal, the product
    by [0.4] being exact there. *)
Theorem boosted_vs_regular (now : Z) (a b : Task) :
  now < deadline a -> now < deadline b ->
  status a = Status.kIoEnd -> status b = Status.kNormal ->
  int_range (deadline a - now) -> int_range (deadline b - now) ->
  ltb (score a now) (score b now) = (2 * (deadline a - now) <? 5 * (deadline b - now)) /\
  ltb (score b now) (score a now) = (5 * (deadline b - now) <? 2 * (deadline a - now)).
Proof.
  intros Ha Hb Hsa Hsb Hra Hrb.
  pose proof (score_canonical a now) as Hca. pose proof (score_canonical b now) as Hcb.
  pose proof (score_on_time_regular b now Hb Hsb Hrb) as Hvb.
  unfold int_range, INT_MIN, INT_MAX in Hra, Hrb.
  destruct (of_int_spec (deadline b - now) ltac:(lia)) as [HcN HvN].
  split.
  - rewrite (ltb_sval _ _ Hca Hcb), Hvb, <- HvN, <- (ltb_sval _ _ Hca HcN).
    rewrite (score_on_time_boosted a now Ha Hsa) by (unfold int_range, INT_MIN, INT_MAX; lia).
    apply boost_lt_int; lia.
  - rewrite (ltb_sval _ _ Hcb Hca), Hvb, <- HvN, <- (ltb_sval _ _ HcN Hca).
    rewrite (score_on_time_boosted a now Ha Hsa) by (unfold int_range, INT_MIN, INT_MAX; lia).
    apply int_lt_boost; lia.
Qed.

End ScoreOrder.

(** ** Further properties of the policy *)

Section PolicyFacts.
Import Binary64 Binary64Facts.
Implicit Types (q : Queues) (t u : Task) (st : State).

Lemma select_length q (fromLevel toLevel : nat) (now : Z) :
  length (selectAndMigrateTask q fromLevel toLevel now).2 = length q.
Proof.
  unfold selectAndMigrateTask.
  destruct (scan_level now (q !!! fromLevel)).1; [ | reflexivity].
  cbn [snd]. by rewrite push_back_length, length_insert.
Qed.

Lemma select_pass_length q (levels : list nat) (now : Z) :
  length (select_pass q levels now).2 = length q.
Proof.
  revert q. induction levels as [ | i levels IH]; intros q; [reflexivity |].
  cbn [select_pass].
  pose proof (select_length q i (next_level i) now) as Hlen.
  destruct (selectAndMigrateTask q i (next_level i) now) as [[chosen | ] q1];
    cbn [snd] in *; [exact Hlen | by rewrite IH].
Qed.

Lemma fold_events_wf (events : list Event) st :
  wf_state st -> wf_state (fold_events st events).
Proof.
  revert st. induction events as [ | ev events IH]; intros st Hwf; [exact Hwf |].
  cbn [fold_events foldl]. apply IH. by apply fold_event_wf.
Qed.

Lemma policy_state (events : list Event) (currentCpuTask currentIoTask : Z) st :
  let st1 := fold_events st events in
  (policy events currentCpuTask currentIoTask st).2
  = mkState (g_currentTime st1)
      (select_pass (g_cpuTaskQueues st1) all_levels (g_currentTime st1)).2
      (if Z.eqb currentIoTask IDLE_TASK_ID
       then (select_pass (g_ioTaskQueues st1) all_levels (g_currentTime st1)).2
       else g_ioTaskQueues st1).
Proof.
  cbv zeta. unfold policy.
  destruct (select_pass (g_cpuTaskQueues _) _ _) as [chosenCpu cpu'].
  destruct (Z.eqb currentIoTask IDLE_TASK_ID); [ | reflexivity].
  by destruct (select_pass (g_ioTaskQueues _) _ _).
Qed.

Lemma policy_action (events : list Event) (currentCpuTask currentIoTask : Z) st :
  let st1 := fold_events st events in
  (policy events currentCpuTask currentIoTask st).1
  = mkAction
      (default currentCpuTask
         (select_pass (g_cpuTaskQueues st1) all_levels (g_currentTime st1)).1)
      (default currentIoTask
         (if Z.eqb currentIoTask IDLE_TASK_ID
          then (select_pass (g_ioTaskQueues st1) all_levels (g_currentTime st1)).1
          else None)).
Proof.
  cbv zeta. unfold policy.
  destruct (select_pass (g_cpuTaskQueues _) _ _) as [chosenCpu cpu'].
  destruct (Z.eqb currentIoTask IDLE_TASK_ID); [ | reflexivity].
  by destruct (select_pass (g_ioTaskQueues _) _ _).
Qed.

(** Whatever the events, a call keeps the four levels of both arrays. *)
Lemma policy_keeps_levels (events : list Event) (currentCpuTask currentIoTask : Z) st :
  wf_state st -> wf_state (policy events currentCpuTask currentIoTask st).2.
Proof.
  intros Hwf. destruct (fold_events_wf events st Hwf) as [Hcpu Hio].
  rewrite policy_state. unfold wf_state, wf_queues in *.
  cbn [g_cpuTaskQueues g_ioTaskQueues]. split.
  - by rewrite select_pass_length.
  - destruct (Z.eqb currentIoTask IDLE_TASK_ID); [by rewrite select_pass_length | exact Hio].
Qed.

(** X1: the clock after a call is the time stamp of the last event of the
    batch, whether it is ahead of the old clock or behind it; an empty
    batch leaves the clock alone. *)
Theorem policy_clock :
  (forall (currentCpuTask currentIoTask : Z) st,
     g_currentTime (policy [] currentCpuTask currentIoTask st).2 = g_currentTime st) /\
  (forall (events : list Event) (ev : Event) (currentCpuTask currentIoTask : Z) st,
     g_currentTime (policy (events ++ [ev]) currentCpuTask currentIoTask st).2 = time ev).
Proof.
  split.
  - intros c io st. by rewrite policy_state.
  - intros events ev c io st. rewrite policy_state. cbn [g_currentTime].
    unfold fold_events. rewrite foldl_app. cbn [foldl].
    unfold fold_event. by destruct (type ev).
Qed.

Lemma select_pass_all_empty q (levels : list nat) (now : Z) :
  (forall i, i ∈ levels -> q !!! i = []) -> select_pass q levels now = (None, q).
Proof.
  induction levels as [ | i levels IH]; intros Hemp; [reflexivity |].
  cbn [select_pass]. rewrite select_empty by (apply Hemp; by left).
  apply IH. intros j Hj. apply Hemp. by right.
Qed.

Lemma elem_of_all_levels (i : nat) : i ∈ all_levels <-> i < NUM_PRIORITY_QUEUES.
Proof. unfold all_levels. rewrite elem_of_seq. lia. Qed.

(** The pass takes the first minimal task of the first non-empty level. *)
Lemma select_pass_first q (now : Z) (i : nat) :
  i < NUM_PRIORITY_QUEUES -> (forall j, j < i -> q !!! j = []) -> q !!! i <> [] ->
  exists t, first_minimal now (q !!! i) t /\
    select_pass q all_levels now
    = (Some (taskId t),
       push_back (<[i := erase_id (taskId t) (q !!! i)]> q)
                 ((i + 1) mod NUM_PRIORITY_QUEUES) t).
Proof.
  intros Hi Hbelow Hne.
  destruct (select_nonempty q i (next_level i) now Hne) as (t & Hmin & Hsel).
  exists t. split; [exact Hmin |].
  unfold NUM_PRIORITY_QUEUES in Hi.
  destruct i as [ | [ | [ | [ | i]]]]; try lia;
    unfold all_levels; cbn [seq NUM_PRIORITY_QUEUES select_pass];
    rewrite ?select_empty by (apply Hbelow; lia);
    by rewrite Hsel.
Qed.

(** X2: the CPU part of the action.  If no CPU level holds a task once the
    events are folded, the occupant is kept and the CPU array is left as
    it is; otherwise the action names the first task of minimal score of
    the first non-empty level, which moves to the next level of the ring. *)
Theorem policy_cpu_choice (events : list Event) (currentCpuTask currentIoTask : Z) st :
  let st1 := fold_events st events in
  let cpu := g_cpuTaskQueues st1 in
  let r := policy events currentCpuTask currentIoTask st in
  ((forall i, i < NUM_PRIORITY_QUEUES -> cpu !!! i = []) ->
   cpuTask r.1 = currentCpuTask /\ g_cpuTaskQueues r.2 = cpu) /\
  (forall i, i < NUM_PRIORITY_QUEUES ->
     (forall j, j < i -> cpu !!! j = []) -> cpu !!! i <> [] ->
     exists t, first_minimal (g_currentTime st1) (cpu !!! i) t /\
       cpuTask r.1 = taskId t /\
       g_cpuTaskQueues r.2
       = push_back (<[i := erase_id (taskId t) (cpu !!! i)]> cpu)
                   ((i + 1) mod NUM_PRIORITY_QUEUES) t).
Proof.
  cbv zeta. rewrite policy_state, policy_action. cbn [fst snd cpuTask g_cpuTaskQueues].
  split.
  - intros Hemp. rewrite select_pass_all_empty; [by split |].
    intros i Hi. by apply Hemp, elem_of_all_levels.
  - intros i Hi Hbelow Hne.
    destruct (select_pass_first _ (g_currentTime (fold_events st events)) i Hi Hbelow Hne)
      as (t & Hmin & ->).
    exists t. by split.
Qed.

(** X3: the IO part of the action when the caller reports the device idle:
    the same choice, made on the IO array. *)
Theorem policy_io_choice (events : list Event) (currentCpuTask : Z) st :
  let st1 := fold_events st events in
  let io := g_ioTaskQueues st1 in
  let r := policy events currentCpuTask IDLE_TASK_ID st in
  ((forall i, i < NUM_PRIORITY_QUEUES -> io !!! i = []) ->
   ioTask r.1 = IDLE_TASK_ID /\ g_ioTaskQueues r.2 = io) /\
  (forall i, i < NUM_PRIORITY_QUEUES ->
     (forall j, j < i -> io !!! j = []) -> io !!! i <> [] ->
     exists t, first_minimal (g_currentTime st1) (io !!! i) t /\
       ioTask r.1 = taskId t /\
       g_ioTaskQueues r.2
       = push_back (<[i := erase_id (taskId t) (io !!! i)]> io)
                   ((i + 1) mod NUM_PRIORITY_QUEUES) t).
Proof.
  cbv zeta. rewrite policy_state, policy_action. cbn [fst snd ioTask g_ioTaskQueues].
  change (Z.eqb IDLE_TASK_ID IDLE_TASK_ID) with true. cbn match.
  split.
  - intros Hemp. rewrite select_pass_all_empty; [by split |].
    intros i Hi. by apply Hemp, elem_of_all_levels.
  - intros i Hi Hbelow Hne.
    destruct (select_pass_first _ (g_currentTime (fold_events st events)) i Hi Hbelow Hne)
      as (t & Hmin & ->).
    exists t. by split.
Qed.

(** *** Ids and tasks under a pass *)

Lemma select_same_ids q (fromLevel toLevel : nat) (now : Z) t q' :
  selectAndMigrateTask q fromLevel toLevel now = (Some t, q') ->
  fromLevel < length q -> toLevel < length q ->
  (forall id, id ∈ queued_ids q' <-> id ∈ queued_ids q) /\
  length (queued_ids q') <= length (queued_ids q).
Proof.
  intros Hsel Hf Ht. apply select_Some_inv in Hsel as [Hmin ->].
  pose proof (queued_ids_push_back
                (<[fromLevel := erase_id (taskId t) (q !!! fromLevel)]> q) toLevel t
                ltac:(by rewrite length_insert)) as Hperm.
  destruct (queued_ids_insert q fromLevel (erase_id (taskId t) (q !!! fromLevel)) Hf)
    as (pre & post & Hq & Hq1).
  rewrite Hq1, ids_erase_id in Hperm.
  assert (taskId t ∈ taskId <$> q !!! fromLevel) as Hin
    by (apply list_elem_of_fmap_2; by eapply first_minimal_elem).
  split.
  - intros id. rewrite Hperm, Hq. rewrite elem_of_cons, !elem_of_app, list_elem_of_filter.
    destruct (decide (id = taskId t)) as [-> | Hne]; [tauto | tauto].
  - rewrite Hperm, Hq. cbn [length]. rewrite !length_app.
    pose proof (length_filter_lt (fun i => i <> taskId t) _ _ Hin ltac:(tauto)). lia.
Qed.

Lemma select_pass_same_ids_aux q (now : Z) (chosen : option Z) q' :
  wf_queues q -> select_pass q all_levels now = (chosen, q') ->
  (forall id, id ∈ queued_ids q' <-> id ∈ queued_ids q) /\
  length (queued_ids q') <= length (queued_ids q).
Proof.
  intros Hwf Hpass. destruct chosen as [id | ].
  - destruct (select_pass_Some _ _ _ _ _ Hpass) as (done & i & rest & t & Hlv & _ & Hsel & _).
    destruct (all_levels_split _ _ _ Hlv) as (Hi & _ & _ & Hn & _).
    unfold wf_queues in Hwf.
    eapply select_same_ids; [exact Hsel | by rewrite Hwf | by rewrite Hwf].
  - apply select_pass_None in Hpass as ->. by split.
Qed.

Lemma select_pass_chosen_queued q (levels : list nat) (now id : Z) q' :
  select_pass q levels now = (Some id, q') -> id ∈ queued_ids q.
Proof.
  intros Hpass.
  destruct (select_pass_Some _ _ _ _ _ Hpass) as (done & i & rest & t & _ & _ & Hsel & <-).
  apply select_Some_inv in Hsel as [Hmin _]. apply first_minimal_elem in Hmin.
  unfold queued_ids. apply list_elem_of_fmap_2, list_elem_of_join.
  exists (q !!! i). split; [exact Hmin |].
  apply list_elem_of_lookup_total_2.
  destruct (decide (i < length q)) as [Hi | Hi]; [exact Hi |].
  rewrite list_lookup_total_alt, lookup_ge_None_2 in Hmin by lia. inversion Hmin.
Qed.

(** X4: a pass neither adds nor drops an id, even when ids are queued more
    than once; it never makes the array longer, keeps its four levels, and
    the id it reports is one that was queued. *)
Theorem select_pass_same_ids q (now : Z) (chosen : option Z) q' :
  wf_queues q -> select_pass q all_levels now = (chosen, q') ->
  (forall id, id ∈ queued_ids q' <-> id ∈ queued_ids q) /\
  length (queued_ids q') <= length (queued_ids q) /\
  wf_queues q' /\
  (forall id, chosen = Some id -> id ∈ queued_ids q).
Proof.
  intros Hwf Hpass.
  destruct (select_pass_same_ids_aux _ _ _ _ Hwf Hpass) as [Hids Hlen].
  split; [exact Hids |]. split; [exact Hlen |]. split.
  - unfold wf_queues in *. rewrite <- Hwf.
    pose proof (select_pass_length q all_levels now) as Hl. by rewrite Hpass in Hl.
  - intros id ->. by eapply select_pass_chosen_queued.
Qed.




(** *** Where queued ids come from *)

Lemma queued_ids_remove q (id : Z) :
  length q <= NUM_PRIORITY_QUEUES ->
  queued_ids (removeTaskFromQueues q id) = filter (fun i => i <> id) (queued_ids q).
Proof. intros Hlen. by rewrite removeTaskFromQueues_fmap, queued_ids_erase_all. Qed.

Lemma elem_of_push_back q (level : nat) t (id : Z) :
  level < length q ->
  id ∈ queued_ids (push_back q level t) <-> id = taskId t \/ id ∈ queued_ids q.
Proof. intros Hl. by rewrite queued_ids_push_back, elem_of_cons. Qed.

Lemma elem_of_removed q (id x : Z) :
  length q <= NUM_PRIORITY_QUEUES ->
  x ∈ queued_ids (removeTaskFromQueues q id) <-> x <> id /\ x ∈ queued_ids q.
Proof. intros Hl. by rewrite queued_ids_remove, list_elem_of_filter. Qed.

Lemma policy_ids_after_fold (events : list Event) (currentCpuTask currentIoTask : Z) st :
  wf_state st ->
  let st1 := fold_events st events in
  let r := policy events currentCpuTask currentIoTask st in
  (forall id, id ∈ queued_ids (g_cpuTaskQueues r.2) <-> id ∈ queued_ids (g_cpuTaskQueues st1)) /\
  (forall id, id ∈ queued_ids (g_ioTaskQueues r.2) <-> id ∈ queued_ids (g_ioTaskQueues st1)).
Proof.
  intros Hwf. cbv zeta. destruct (fold_events_wf events st Hwf) as [Hcpu Hio].
  rewrite policy_state. cbn [g_cpuTaskQueues g_ioTaskQueues]. split.
  - destruct (select_pass (g_cpuTaskQueues _) _ _) as [chosen cpu'] eqn:Hpass.
    by destruct (select_pass_same_ids_aux _ _ _ _ Hcpu Hpass).
  - destruct (Z.eqb currentIoTask IDLE_TASK_ID); [ | done].
    destruct (select_pass (g_ioTaskQueues _) _ _) as [chosen io'] eqn:Hpass.
    by destruct (select_pass_same_ids_aux _ _ _ _ Hio Hpass).
Qed.

Lemma nonempty_ids_pass q (now x : Z) :
  wf_queues q -> x ∈ queued_ids q ->
  exists id q', select_pass q all_levels now = (Some id, q').
Proof.
  intros Hwf Hx. unfold queued_ids in Hx.
  apply list_elem_of_fmap in Hx as (t & _ & Ht).
  apply list_elem_of_join in Ht as (v & Ht & Hv).
  apply list_elem_of_lookup_1 in Hv as [i Hi].
  apply select_pass_nonempty with i.
  - rewrite list_lookup_total_alt, Hi. cbn. intros ->. inversion Ht.
  - apply elem_of_all_levels. apply lookup_lt_Some in Hi. by rewrite <- Hwf.
Qed.

Lemma policy_cpu_task (events : list Event) (currentCpuTask currentIoTask : Z) st :
  wf_state st ->
  let st1 := fold_events st events in
  let r := policy events currentCpuTask currentIoTask st in
  (cpuTask r.1 = currentCpuTask \/ cpuTask r.1 ∈ queued_ids (g_cpuTaskQueues st1)) /\
  (forall x, x ∈ queued_ids (g_cpuTaskQueues st1) ->
             cpuTask r.1 ∈ queued_ids (g_cpuTaskQueues st1)).
Proof.
  intros Hwf. cbv zeta. destruct (fold_events_wf events st Hwf) as [Hcpu _].
  rewrite policy_action. cbn [cpuTask].
  destruct (select_pass (g_cpuTaskQueues _) _ _) as [[id | ] cpu'] eqn:Hpass; cbn [fst default].
  - apply select_pass_chosen_queued in Hpass. split; [by right | done].
  - split; [by left |]. intros x Hx.
    destruct (nonempty_ids_pass _ (g_currentTime (fold_events st events)) x Hcpu Hx)
      as (id & q' & Heq).
    rewrite Heq in Hpass. discriminate.
Qed.

Lemma policy_io_task (events : list Event) (currentCpuTask currentIoTask : Z) st :
  wf_state st ->
  let st1 := fold_events st events in
  let r := policy events currentCpuTask currentIoTask st in
  (ioTask r.1 = currentIoTask \/ ioTask r.1 ∈ queued_ids (g_ioTaskQueues st1)) /\
  (currentIoTask = IDLE_TASK_ID ->
   forall x, x ∈ queued_ids (g_ioTaskQueues st1) ->
             ioTask r.1 ∈ queued_ids (g_ioTaskQueues st1)).
Proof.
  intros Hwf. cbv zeta. destruct (fold_events_wf events st Hwf) as [_ Hio].
  rewrite policy_action. cbn [ioTask].
  destruct (Z.eqb_spec currentIoTask IDLE_TASK_ID) as [Hidle | Hbusy].
  - destruct (select_pass (g_ioTaskQueues _) _ _) as [[id | ] io'] eqn:Hpass; cbn [fst default].
    + apply select_pass_chosen_queued in Hpass. split; [by right | done].
    + split; [by left |]. intros _ x Hx.
      destruct (nonempty_ids_pass _ (g_currentTime (fold_events st events)) x Hio Hx)
        as (id & q' & Heq).
      rewrite Heq in Hpass. discriminate.
  - cbn [default]. split; [by left | intros; contradiction].
Qed.

Lemma fold_events_snoc (events : list Event) (ev : Event) st :
  fold_events st (events ++ [ev]) = fold_event (fold_events st events) ev.
Proof. unfold fold_events. by rewrite foldl_app. Qed.

(** X6: when the batch ends with the Finish of a task, the task is in no
    CPU level after the call and the CPU pass does not choose it: the
    action can only name it if the caller passed it as the occupant.  The
    IO array is not searched: it holds the ids it held before the event. *)
Theorem finish_last (events : list Event) (ev : Event)
    (currentCpuTask currentIoTask : Z) st :
  wf_state st -> type ev = EventType.kTaskFinish ->
  let id := taskId (task ev) in
  let r := policy (events ++ [ev]) currentCpuTask currentIoTask st in
  (id ∉ queued_ids (g_cpuTaskQueues r.2)) /\
  (cpuTask r.1 = id -> currentCpuTask = id) /\
  (forall x, x ∈ queued_ids (g_ioTaskQueues r.2)
             <-> x ∈ queued_ids (g_ioTaskQueues (fold_events st events))).
Proof.
  intros Hwf Hty. cbv zeta.
  destruct (policy_ids_after_fold (events ++ [ev]) currentCpuTask currentIoTask st Hwf)
    as [Hcpu Hio].
  destruct (policy_cpu_task (events ++ [ev]) currentCpuTask currentIoTask st Hwf)
    as [Hchoice _].
  cbv zeta in *. rewrite fold_events_snoc in *.
  destruct (fold_events_wf events st Hwf) as [Hwc Hwi].
  assert (g_cpuTaskQueues (fold_event (fold_events st events) ev)
          = removeTaskFromQueues (g_cpuTaskQueues (fold_events st events)) (taskId (task ev))
          /\ g_ioTaskQueues (fold_event (fold_events st events) ev)
             = g_ioTaskQueues (fold_events st events)) as [Ec Ei]
    by (unfold fold_event; by rewrite Hty).
  rewrite Ec in *. rewrite Ei in *.
  assert (taskId (task ev) ∉ queued_ids
            (removeTaskFromQueues (g_cpuTaskQueues (fold_events st events)) (taskId (task ev))))
    as Hgone by (rewrite elem_of_removed by (by rewrite Hwc); tauto).
  split; [by rewrite Hcpu |]. split; [ | exact Hio].
  intros Heq. destruct Hchoice as [Hkeep | Hin]; [congruence |].
  rewrite Heq in Hin. contradiction.
Qed.

(** X7: when the batch ends with the IoRequest of a task, after the call
    the task is in no CPU level and is queued for IO; the CPU pass does not
    choose it, and if the device is idle the IO pass dispatches a queued
    task in the same call. *)
Theorem io_request_last (events : list Event) (ev : Event)
    (currentCpuTask currentIoTask : Z) st :
  wf_state st -> type ev = EventType.kIoRequest ->
  let id := taskId (task ev) in
  let r := policy (events ++ [ev]) currentCpuTask currentIoTask st in
  (id ∉ queued_ids (g_cpuTaskQueues r.2)) /\
  id ∈ queued_ids (g_ioTaskQueues r.2) /\
  (cpuTask r.1 = id -> currentCpuTask = id) /\
  (currentIoTask = IDLE_TASK_ID -> ioTask r.1 ∈ queued_ids (g_ioTaskQueues r.2)).
Proof.
  intros Hwf Hty. cbv zeta.
  destruct (policy_ids_after_fold (events ++ [ev]) currentCpuTask currentIoTask st Hwf)
    as [Hcpu Hio].
  destruct (policy_cpu_task (events ++ [ev]) currentCpuTask currentIoTask st Hwf)
    as [Hchoice _].
  destruct (policy_io_task (events ++ [ev]) currentCpuTask currentIoTask st Hwf)
    as [_ Hdispatch].
  cbv zeta in *. rewrite fold_events_snoc in *.
  destruct (fold_events_wf events st Hwf) as [Hwc Hwi].
  pose proof (entry_level_lt (priority (task ev))) as Hlvl.
  assert (g_cpuTaskQueues (fold_event (fold_events st events) ev)
          = removeTaskFromQueues (g_cpuTaskQueues (fold_events st events)) (taskId (task ev))
          /\ g_ioTaskQueues (fold_event (fold_events st events) ev)
             = push_back (g_ioTaskQueues (fold_events st events))
                 (entry_level (priority (task ev))) (task ev)) as [Ec Ei]
    by (unfold fold_event; by rewrite Hty).
  rewrite Ec in *. rewrite Ei in *.
  assert (taskId (task ev) ∉ queued_ids
            (removeTaskFromQueues (g_cpuTaskQueues (fold_events st events)) (taskId (task ev))))
    as Hgone by (rewrite elem_of_removed by (by rewrite Hwc); tauto).
  assert (taskId (task ev) ∈ queued_ids
            (push_back (g_ioTaskQueues (fold_events st events))
               (entry_level (priority (task ev))) (task ev)))
    as Hqueued by (rewrite elem_of_push_back by (by rewrite Hwi); by left).
  split; [by rewrite Hcpu |]. split; [by rewrite Hio |]. split.
  - intros Heq. destruct Hchoice as [Hkeep | Hin]; [congruence |].
    rewrite Heq in Hin. contradiction.
  - intros Hidle. rewrite Hio. by eapply Hdispatch.
Qed.

(** X8: when the batch ends with the IoEnd of a task, after the call the
    task is in no IO level and is queued for the CPU; the CPU pass
    dispatches a queued task, and the IO pass does not choose the task. *)
Theorem io_end_last (events : list Event) (ev : Event)
    (currentCpuTask currentIoTask : Z) st :
  wf_state st -> type ev = EventType.kIoEnd ->
  let id := taskId (task ev) in
  let r := policy (events ++ [ev]) currentCpuTask currentIoTask st in
  (id ∉ queued_ids (g_ioTaskQueues r.2)) /\
  id ∈ queued_ids (g_cpuTaskQueues r.2) /\
  cpuTask r.1 ∈ queued_ids (g_cpuTaskQueues r.2) /\
  (ioTask r.1 = id -> currentIoTask = id).
Proof.
  intros Hwf Hty. cbv zeta.
  destruct (policy_ids_after_fold (events ++ [ev]) currentCpuTask currentIoTask st Hwf)
    as [Hcpu Hio].
  destruct (policy_cpu_task (events ++ [ev]) currentCpuTask currentIoTask st Hwf)
    as [_ Hdispatch].
  destruct (policy_io_task (events ++ [ev]) currentCpuTask currentIoTask st Hwf)
    as [Hchoice _].
  cbv zeta in *. rewrite fold_events_snoc in *.
  destruct (fold_events_wf events st Hwf) as [Hwc Hwi].
  pose proof (entry_level_lt (priority (task ev))) as Hlvl.
  assert (g_ioTaskQueues (fold_event (fold_events st events) ev)
          = removeTaskFromQueues (g_ioTaskQueues (fold_events st events)) (taskId (task ev))
          /\ g_cpuTaskQueues (fold_event (fold_events st events) ev)
             = push_back (g_cpuTaskQueues (fold_events st events))
                 (entry_level (priority (task ev)))
                 (with_status (task ev) Status.kIoEnd)) as [Ei Ec]
    by (unfold fold_event; by rewrite Hty).
  rewrite Ec in *. rewrite Ei in *.
  assert (taskId (task ev) ∉ queued_ids
            (removeTaskFromQueues (g_ioTaskQueues (fold_events st events)) (taskId (task ev))))
    as Hgone by (rewrite elem_of_removed by (by rewrite Hwi); tauto).
  assert (taskId (task ev) ∈ queued_ids
            (push_back (g_cpuTaskQueues (fold_events st events))
               (entry_level (priority (task ev))) (with_status (task ev) Status.kIoEnd)))
    as Hqueued by (rewrite elem_of_push_back by (by rewrite Hwc); by left).
  split; [by rewrite Hio |]. split; [by rewrite Hcpu |]. split.
  - rewrite Hcpu. by eapply Hdispatch.
  - intros Heq. destruct Hchoice as [Hkeep | Hin]; [congruence |].
    rewrite Heq in Hin. contradiction.
Qed.

(** X9: when the batch ends with an Arrival, the task is queued for the
    CPU after the call, the CPU pass dispatches a queued task (the
    occupant passed by the caller is not kept), and the event leaves the
    ids of the IO array as they were. *)
Theorem arrival_last (events : list Event) (ev : Event)
    (currentCpuTask currentIoTask : Z) st :
  wf_state st -> type ev = EventType.kTaskArrival ->
  let id := taskId (task ev) in
  let r := policy (events ++ [ev]) currentCpuTask currentIoTask st in
  id ∈ queued_ids (g_cpuTaskQueues r.2) /\
  cpuTask r.1 ∈ queued_ids (g_cpuTaskQueues r.2) /\
  (forall x, x ∈ queued_ids (g_ioTaskQueues r.2)
             <-> x ∈ queued_ids (g_ioTaskQueues (fold_events st events))).
Proof.
  intros Hwf Hty. cbv zeta.
  destruct (policy_ids_after_fold (events ++ [ev]) currentCpuTask currentIoTask st Hwf)
    as [Hcpu Hio].
  destruct (policy_cpu_task (events ++ [ev]) currentCpuTask currentIoTask st Hwf)
    as [_ Hdispatch].
  cbv zeta in *. rewrite fold_events_snoc in *.
  destruct (fold_events_wf events st Hwf) as [Hwc Hwi].
  pose proof (entry_level_lt (priority (task ev))) as Hlvl.
  assert (g_ioTaskQueues (fold_event (fold_events st events) ev)
          = g_ioTaskQueues (fold_events st events)
          /\ g_cpuTaskQueues (fold_event (fold_events st events) ev)
             = push_back (g_cpuTaskQueues (fold_events st events))
                 (entry_level (priority (task ev))) (task ev)) as [Ei Ec]
    by (unfold fold_event; by rewrite Hty).
  rewrite Ec in *. rewrite Ei in *.
  assert (taskId (task ev) ∈ queued_ids
            (push_back (g_cpuTaskQueues (fold_events st events))
               (entry_level (priority (task ev))) (task ev)))
    as Hqueued by (rewrite elem_of_push_back by (by rewrite Hwc); by left).
  split; [by rewrite Hcpu |]. split; [ | exact Hio].
  rewrite Hcpu. by eapply Hdispatch.
Qed.

Lemma fold_event_ids_origin st (ev : Event) (id : Z) :
  wf_state st ->
  (id ∈ queued_ids (g_cpuTaskQueues (fold_event st ev)) ->
   id ∈ queued_ids (g_cpuTaskQueues st) \/
   ((type ev = EventType.kTaskArrival \/ type ev = EventType.kIoEnd) /\
    taskId (task ev) = id)) /\
  (id ∈ queued_ids (g_ioTaskQueues (fold_event st ev)) ->
   id ∈ queued_ids (g_ioTaskQueues st) \/
   (type ev = EventType.kIoRequest /\ taskId (task ev) = id)).
Proof.
  intros [Hwc Hwi]. unfold wf_queues in *.
  pose proof (entry_level_lt (priority (task ev))) as Hlvl.
  unfold fold_event.
  destruct (type ev) eqn:Hty; cbn [g_cpuTaskQueues g_ioTaskQueues];
    rewrite ?elem_of_push_back, ?elem_of_removed by (by rewrite ?Hwc, ?Hwi);
    cbn [taskId with_status]; split; intros Hin;
    repeat match goal with
           | H : _ \/ _ |- _ => destruct H
           | H : _ /\ _ |- _ => destruct H
           end;
    try (by left); right; repeat split; auto.
Qed.

Lemma fold_events_ids_origin (events : list Event) st (id : Z) :
  wf_state st ->
  (id ∈ queued_ids (g_cpuTaskQueues (fold_events st events)) ->
   id ∈ queued_ids (g_cpuTaskQueues st) \/
   exists ev, ev ∈ events /\
     (type ev = EventType.kTaskArrival \/ type ev = EventType.kIoEnd) /\
     taskId (task ev) = id) /\
  (id ∈ queued_ids (g_ioTaskQueues (fold_events st events)) ->
   id ∈ queued_ids (g_ioTaskQueues st) \/
   exists ev, ev ∈ events /\ type ev = EventType.kIoRequest /\ taskId (task ev) = id).
Proof.
  revert st. induction events as [ | ev events IH]; intros st Hwf; [by split; left |].
  cbn [fold_events foldl].
  destruct (IH (fold_event st ev) (fold_event_wf st ev Hwf)) as [IHc IHi].
  destruct (fold_event_ids_origin st ev id Hwf) as [Hc Hi].
  split.
  - intros Hin. destruct (IHc Hin) as [Hprev | (e & He & Hk)].
    + destruct (Hc Hprev) as [Hold | Hnew]; [by left |].
      right. exists ev. split; [by left | exact Hnew].
    + right. exists e. split; [by right | exact Hk].
  - intros Hin. destruct (IHi Hin) as [Hprev | (e & He & Hk)].
    + destruct (Hi Hprev) as [Hold | Hnew]; [by left |].
      right. exists ev. split; [by left | exact Hnew].
    + right. exists e. split; [by right | exact Hk].
Qed.

(** X10: a call invents no task.  An id queued for the CPU after the call
    was queued for the CPU before it or is the id of an Arrival or IoEnd
    event of the batch; an id queued for IO was queued for IO before or is
    the id of an IoRequest event; and the CPU task of the action is the
    occupant passed by the caller or an id queued for the CPU. *)
Theorem policy_invents_no_id (events : list Event) (currentCpuTask currentIoTask : Z) st :
  wf_state st ->
  let r := policy events currentCpuTask currentIoTask st in
  (forall id, id ∈ queued_ids (g_cpuTaskQueues r.2) ->
     id ∈ queued_ids (g_cpuTaskQueues st) \/
     exists ev, ev ∈ events /\
       (type ev = EventType.kTaskArrival \/ type ev = EventType.kIoEnd) /\
       taskId (task ev) = id) /\
  (forall id, id ∈ queued_ids (g_ioTaskQueues r.2) ->
     id ∈ queued_ids (g_ioTaskQueues st) \/
     exists ev, ev ∈ events /\ type ev = EventType.kIoRequest /\ taskId (task ev) = id) /\
  (cpuTask r.1 = currentCpuTask \/ cpuTask r.1 ∈ queued_ids (g_cpuTaskQueues r.2)) /\
  (ioTask r.1 = currentIoTask \/ ioTask r.1 ∈ queued_ids (g_ioTaskQueues r.2)).
Proof.
  intros Hwf. cbv zeta.
  destruct (policy_ids_after_fold events currentCpuTask currentIoTask st Hwf) as [Hcpu Hio].
  destruct (policy_cpu_task events currentCpuTask currentIoTask st Hwf) as [Hc _].
  destruct (policy_io_task events currentCpuTask currentIoTask st Hwf) as [Hi _].
  cbv zeta in *.
  split; [ | split; [ | split]].
  - intros id Hin. apply Hcpu in Hin. by apply (fold_events_ids_origin events st id Hwf).
  - intros id Hin. apply Hio in Hin. by apply (fold_events_ids_origin events st id Hwf).
  - destruct Hc as [Hc | Hc]; [by left | right; by apply Hcpu].
  - destruct Hi as [Hi | Hi]; [by left | right; by apply Hio].
Qed.

(** *** Events that undo each other *)

Lemma erase_id_snoc_same (id : Z) (v : list Task) t :
  taskId t = id -> erase_id id (v ++ [t]) = erase_id id v.
Proof.
  intros Hid. unfold erase_id. rewrite filter_app, filter_cons_False, filter_nil
    by (intros Hne; by apply Hne).
  by rewrite app_nil_r.
Qed.

Lemma remove_absent q (id : Z) :
  wf_queues q -> id ∉ queued_ids q -> removeTaskFromQueues q id = q.
Proof.
  unfold wf_queues. intros Hwf Habs.
  rewrite removeTaskFromQueues_fmap by (by rewrite Hwf).
  rewrite <- (list_fmap_id q) at 2. apply list_fmap_ext. intros i v Hv. cbn.
  apply erase_id_absent. intros t Ht Heq. apply Habs. rewrite <- Heq.
  unfold queued_ids. apply list_elem_of_fmap_2, list_elem_of_join.
  exists v. split; [exact Ht |]. by eapply list_elem_of_lookup_2.
Qed.

Lemma remove_push_back_same q (level : nat) t (id : Z) :
  wf_queues q -> taskId t = id ->
  removeTaskFromQueues (push_back q level t) id = removeTaskFromQueues q id.
Proof.
  unfold wf_queues. intros Hwf Hid.
  rewrite !removeTaskFromQueues_fmap by (by rewrite ?push_back_length, Hwf).
  unfold push_back. rewrite list_fmap_insert, erase_id_snoc_same by exact Hid.
  apply list_insert_id'. intros Hl. rewrite list_lookup_fmap.
  rewrite length_fmap in Hl. by rewrite (list_lookup_lookup_total_lt _ _ Hl).
Qed.

(** X11: an IoRequest followed by the IoEnd of the same task leaves in the
    IO array exactly what was there without the task (the array itself if
    the task was not queued for IO); in the CPU array the task is taken
    out of every level and queued again at its entry level with status
    JustFinishedIO. *)
Theorem io_request_end_round_trip st (t t' : Task) (time1 time2 : Z) :
  wf_state st -> taskId t' = taskId t ->
  let st2 := fold_events st [mkEvent time1 EventType.kIoRequest t;
                             mkEvent time2 EventType.kIoEnd t'] in
  g_ioTaskQueues st2 = removeTaskFromQueues (g_ioTaskQueues st) (taskId t) /\
  (taskId t ∉ queued_ids (g_ioTaskQueues st) -> g_ioTaskQueues st2 = g_ioTaskQueues st) /\
  g_cpuTaskQueues st2
  = push_back (removeTaskFromQueues (g_cpuTaskQueues st) (taskId t))
      (match priority t' with Priority.kHigh => 0 | Priority.kLow => 2 end)
      (mkTask (taskId t) (priority t') (deadline t') Status.kIoEnd) /\
  g_currentTime st2 = time2.
Proof.
  intros [Hwc Hwi] Hid. cbv zeta. unfold fold_events. cbn [foldl].
  unfold fold_event at 1. cbn [type task time g_cpuTaskQueues g_ioTaskQueues].
  unfold fold_event. cbn [type task time g_cpuTaskQueues g_ioTaskQueues g_currentTime].
  rewrite Hid, remove_push_back_same by done.
  split; [reflexivity |]. split; [ | split; [ | reflexivity]].
  - intros Habs. by apply remove_absent.
  - unfold with_status. rewrite Hid. by destruct (priority t').
Qed.

(** X12: an Arrival followed by the Finish of the same task leaves the CPU
    array as it was without the task (the array itself if the task was not
    queued for the CPU), and leaves the IO array alone. *)
Theorem arrival_finish_cancel st (t t' : Task) (time1 time2 : Z) :
  wf_state st -> taskId t' = taskId t ->
  let st2 := fold_events st [mkEvent time1 EventType.kTaskArrival t;
                             mkEvent time2 EventType.kTaskFinish t'] in
  g_cpuTaskQueues st2 = removeTaskFromQueues (g_cpuTaskQueues st) (taskId t) /\
  (taskId t ∉ queued_ids (g_cpuTaskQueues st) -> g_cpuTaskQueues st2 = g_cpuTaskQueues st) /\
  g_ioTaskQueues st2 = g_ioTaskQueues st /\
  g_currentTime st2 = time2.
Proof.
  intros [Hwc Hwi] Hid. cbv zeta. unfold fold_events. cbn [foldl].
  unfold fold_event at 1. cbn [type task time g_cpuTaskQueues g_ioTaskQueues].
  unfold fold_event. cbn [type task time g_cpuTaskQueues g_ioTaskQueues g_currentTime].
  rewrite Hid, remove_push_back_same by done.
  split; [reflexivity |]. split; [ | by split].
  intros Habs. by apply remove_absent.
Qed.

(** *** Removal by id *)

Lemma erase_id_comm (a b : Z) (v : list Task) :
  erase_id a (erase_id b v) = erase_id b (erase_id a v).
Proof.
  unfold erase_id. induction v as [ | x v IH]; [reflexivity |].
  rewrite !(filter_cons _ x).
  destruct (decide (taskId x <> a)), (decide (taskId x <> b));
    rewrite ?filter_cons_True, ?filter_cons_False by tauto; by rewrite ?IH.
Qed.

(** X13: removals of two ids commute, on arrays of any length. *)
Theorem removeTaskFromQueues_comm q (a b : Z) :
  removeTaskFromQueues (removeTaskFromQueues q a) b
  = removeTaskFromQueues (removeTaskFromQueues q b) a.
Proof.
  rewrite !removeTaskFromQueues_take.
  destruct q as [ | v0 [ | v1 [ | v2 [ | v3 q]]]]; cbn;
    by rewrite ?(erase_id_comm b a).
Qed.

(** X14: removal takes out of the queued ids every occurrence of the id
    and nothing else, keeps the order of what remains and the number of
    levels. *)
Theorem removeTaskFromQueues_filters q (id : Z) :
  length q <= NUM_PRIORITY_QUEUES ->
  queued_ids (removeTaskFromQueues q id) = filter (fun i => i <> id) (queued_ids q) /\
  mjoin (removeTaskFromQueues q id) = filter (fun t => taskId t <> id) (mjoin q) /\
  length (removeTaskFromQueues q id) = length q /\
  id ∉ queued_ids (removeTaskFromQueues q id).
Proof.
  intros Hlen. rewrite queued_ids_remove by exact Hlen.
  rewrite removeTaskFromQueues_fmap by exact Hlen.
  split; [reflexivity |]. split; [ | split; [by rewrite length_fmap |]].
  - clear Hlen. induction q as [ | v q IH]; [reflexivity |].
    cbn [fmap list_fmap mjoin list_join]. rewrite filter_app. f_equal. exact IH.
  - apply not_elem_of_filter_ne.
Qed.

(** *** Edge cases of a batch *)

Lemma no_ids_all_empty q :
  queued_ids q = [] -> forall i, q !!! i = [].
Proof.
  intros Hnil i. destruct (q !!! i) as [ | t v] eqn:Hqi; [reflexivity |].
  assert (taskId t ∈ queued_ids q) as Hin; [ | rewrite Hnil in Hin; inversion Hin].
  unfold queued_ids. apply list_elem_of_fmap_2, list_elem_of_join.
  exists (q !!! i). split; [rewrite Hqi; by left |].
  apply list_elem_of_lookup_total_2.
  destruct (decide (i < length q)) as [Hi | Hi]; [exact Hi |].
  rewrite list_lookup_total_alt, lookup_ge_None_2 in Hqi by lia. discriminate.
Qed.

(** X17: when the batch ends with the Finish of the only task queued for
    the CPU, the CPU array is empty after the call and the action keeps
    the occupant passed by the caller, be it the finished task itself. *)
Theorem finish_of_only_task (events : list Event) (ev : Event)
    (currentCpuTask currentIoTask : Z) st :
  wf_state st -> type ev = EventType.kTaskFinish ->
  (forall x, x ∈ queued_ids (g_cpuTaskQueues (fold_events st events)) ->
             x = taskId (task ev)) ->
  let r := policy (events ++ [ev]) currentCpuTask currentIoTask st in
  cpuTask r.1 = currentCpuTask /\ queued_ids (g_cpuTaskQueues r.2) = [].
Proof.
  intros Hwf Hty Honly. cbv zeta.
  destruct (fold_events_wf events st Hwf) as [Hwc _]. unfold wf_queues in Hwc.
  assert (queued_ids (g_cpuTaskQueues (fold_events st (events ++ [ev]))) = []) as Hnil.
  { rewrite fold_events_snoc. unfold fold_event. rewrite Hty. cbn [g_cpuTaskQueues].
    rewrite queued_ids_remove by (by rewrite Hwc).
    induction (queued_ids (g_cpuTaskQueues (fold_events st events))) as [ | x l IH];
      [reflexivity |].
    rewrite filter_cons_False.
    - apply IH. intros y Hy. apply Honly. by right.
    - intros Hne. apply Hne, Honly. by left. }
  rewrite policy_state, policy_action. cbn [fst snd cpuTask g_cpuTaskQueues].
  rewrite select_pass_all_empty by (intros i _; by apply no_ids_all_empty).
  by split.
Qed.

Lemma timer_batch_queues (events : list Event) st :
  (forall ev, ev ∈ events -> type ev = EventType.kTimer) ->
  g_cpuTaskQueues (fold_events st events) = g_cpuTaskQueues st /\
  g_ioTaskQueues (fold_events st events) = g_ioTaskQueues st.
Proof.
  revert st. induction events as [ | ev events IH]; intros st Hall; [by split |].
  change (fold_events st (ev :: events)) with (fold_events (fold_event st ev) events).
  destruct (IH (fold_event st ev) ltac:(intros e He; apply Hall; by right)) as [-> ->].
  unfold fold_event. by rewrite (Hall ev ltac:(by left)).
Qed.

(** X18: a batch made of Timer events only sets the clock: the call is the
    call with no event on the same queues at the new clock. *)
Theorem timer_batch_sets_clock (events : list Event)
    (currentCpuTask currentIoTask : Z) st :
  (forall ev, ev ∈ events -> type ev = EventType.kTimer) ->
  policy events currentCpuTask currentIoTask st
  = policy [] currentCpuTask currentIoTask
      (mkState (g_currentTime (fold_events st events))
               (g_cpuTaskQueues st) (g_ioTaskQueues st)).
Proof.
  intros Hall. destruct (timer_batch_queues events st Hall) as [Hc Hi].
  unfold policy. cbn [fold_events foldl g_currentTime g_cpuTaskQueues g_ioTaskQueues].
  by rewrite Hc, Hi.
Qed.

End PolicyFacts.

(** ** Instances of the further properties *)

Section MoreInstances.
Import Binary64.

Lemma policy_cpu_choice_witness :
  0 < NUM_PRIORITY_QUEUES /\
  g_cpuTaskQueues (fold_events example_state []) !!! 0 <> [] /\
  exists t, cpuTask (policy [] 0 0 example_state).1 = taskId t.
Proof.
  assert (0 < NUM_PRIORITY_QUEUES) as H1 by (unfold NUM_PRIORITY_QUEUES; lia).
  assert (forall j, j < 0 -> g_cpuTaskQueues (fold_events example_state []) !!! j = [])
    as H2 by (intros j Hj; lia).
  assert (g_cpuTaskQueues (fold_events example_state []) !!! 0 <> [])
    as H3 by (cbn; discriminate).
  split; [exact H1 | split; [exact H3 |]].
  destruct (proj2 (policy_cpu_choice [] 0 0 example_state) 0 H1 H2 H3) as (t & _ & Ht & _).
  exists t. exact Ht.
Defined.

Lemma policy_io_choice_witness :
  0 < NUM_PRIORITY_QUEUES /\
  g_ioTaskQueues (fold_events io_waiting []) !!! 0 <> [] /\
  exists t, ioTask (policy [] 0 IDLE_TASK_ID io_waiting).1 = taskId t.
Proof.
  assert (0 < NUM_PRIORITY_QUEUES) as H1 by (unfold NUM_PRIORITY_QUEUES; lia).
  assert (forall j, j < 0 -> g_ioTaskQueues (fold_events io_waiting []) !!! j = [])
    as H2 by (intros j Hj; lia).
  assert (g_ioTaskQueues (fold_events io_waiting []) !!! 0 <> [])
    as H3 by (cbn; discriminate).
  split; [exact H1 | split; [exact H3 |]].
  destruct (proj2 (policy_io_choice [] 0 io_waiting) 0 H1 H2 H3) as (t & _ & Ht & _).
  exists t. exact Ht.
Defined.

Lemma select_pass_same_ids_witness :
  wf_queues (g_cpuTaskQueues example_state) /\
  select_pass (g_cpuTaskQueues example_state) all_levels 5
    = (Some 5%Z, [[task7]; [task5]; []; []]) /\
  length (queued_ids [[task7]; [task5]; []; []])
    <= length (queued_ids (g_cpuTaskQueues example_state)).
Proof.
  assert (wf_queues (g_cpuTaskQueues example_state)) as H1 by reflexivity.
  assert (select_pass (g_cpuTaskQueues example_state) all_levels 5
          = (Some 5%Z, [[task7]; [task5]; []; []])) as H2 by (vm_compute; reflexivity).
  split; [exact H1 | split; [exact H2 |]].
  exact (proj1 (proj2 (select_pass_same_ids _ _ _ _ H1 H2))).
Defined.


Lemma example_state_wf : wf_state example_state.
Proof. split; reflexivity. Defined.

Lemma initial_state_wf : wf_state initial_state.
Proof. split; reflexivity. Defined.

Lemma finish_last_witness :
  wf_state example_state /\ type finish5 = EventType.kTaskFinish /\
  taskId (task finish5) ∉ queued_ids (g_cpuTaskQueues (policy ([] ++ [finish5]) 5 0 example_state).2).
Proof.
  assert (type finish5 = EventType.kTaskFinish) as H2 by reflexivity.
  split; [exact example_state_wf | split; [exact H2 |]].
  exact (proj1 (finish_last [] finish5 5 0 example_state example_state_wf H2)).
Defined.

Lemma io_request_last_witness :
  wf_state example_state /\ type request5 = EventType.kIoRequest /\
  taskId (task request5) ∈ queued_ids (g_ioTaskQueues (policy ([] ++ [request5]) 5 0 example_state).2).
Proof.
  assert (type request5 = EventType.kIoRequest) as H2 by reflexivity.
  split; [exact example_state_wf | split; [exact H2 |]].
  exact (proj1 (proj2 (io_request_last [] request5 5 0 example_state example_state_wf H2))).
Defined.

Lemma io_end_last_witness :
  wf_state initial_state /\ type io_end_event = EventType.kIoEnd /\
  taskId (task io_end_event)
    ∈ queued_ids (g_cpuTaskQueues (policy ([] ++ [io_end_event]) 0 2 initial_state).2).
Proof.
  assert (type io_end_event = EventType.kIoEnd) as H2 by reflexivity.
  split; [exact initial_state_wf | split; [exact H2 |]].
  exact (proj1 (proj2 (io_end_last [] io_end_event 0 2 initial_state initial_state_wf H2))).
Defined.

Lemma arrival_last_witness :
  wf_state initial_state /\ type arrival_worker = EventType.kTaskArrival /\
  cpuTask (policy ([] ++ [arrival_worker]) 0 0 initial_state).1
    ∈ queued_ids (g_cpuTaskQueues (policy ([] ++ [arrival_worker]) 0 0 initial_state).2).
Proof.
  assert (type arrival_worker = EventType.kTaskArrival) as H2 by reflexivity.
  split; [exact initial_state_wf | split; [exact H2 |]].
  exact (proj1 (proj2 (arrival_last [] arrival_worker 0 0 initial_state initial_state_wf H2))).
Defined.

Lemma policy_invents_no_id_witness :
  wf_state initial_state /\
  (cpuTask (policy [arrival_worker] 0 0 initial_state).1 = 0%Z \/
   cpuTask (policy [arrival_worker] 0 0 initial_state).1
     ∈ queued_ids (g_cpuTaskQueues (policy [arrival_worker] 0 0 initial_state).2)).
Proof.
  split; [exact initial_state_wf |].
  exact (proj1 (proj2 (proj2
           (policy_invents_no_id [arrival_worker] 0 0 initial_state initial_state_wf)))).
Defined.

Lemma io_request_end_round_trip_witness :
  wf_state example_state /\ taskId io_ended = taskId io_task /\
  g_ioTaskQueues
    (fold_events example_state [mkEvent 6 EventType.kIoRequest io_task;
                                mkEvent 8 EventType.kIoEnd io_ended])
  = removeTaskFromQueues (g_ioTaskQueues example_state) (taskId io_task).
Proof.
  assert (taskId io_ended = taskId io_task) as H2 by reflexivity.
  split; [exact example_state_wf | split; [exact H2 |]].
  exact (proj1 (io_request_end_round_trip example_state io_task io_ended 6 8
                  example_state_wf H2)).
Defined.

Lemma arrival_finish_cancel_witness :
  wf_state example_state /\ taskId worker = taskId worker /\
  g_cpuTaskQueues
    (fold_events example_state [mkEvent 6 EventType.kTaskArrival worker;
                                mkEvent 8 EventType.kTaskFinish worker])
  = removeTaskFromQueues (g_cpuTaskQueues example_state) (taskId worker).
Proof.
  assert (taskId worker = taskId worker) as H2 by reflexivity.
  split; [exact example_state_wf | split; [exact H2 |]].
  exact (proj1 (arrival_finish_cancel example_state worker worker 6 8
                  example_state_wf H2)).
Defined.

Lemma removeTaskFromQueues_filters_witness :
  length (g_cpuTaskQueues example_state) <= NUM_PRIORITY_QUEUES /\
  length (removeTaskFromQueues (g_cpuTaskQueues example_state) 7)
  = length (g_cpuTaskQueues example_state).
Proof.
  assert (length (g_cpuTaskQueues example_state) <= NUM_PRIORITY_QUEUES) as H1
    by (cbn; unfold NUM_PRIORITY_QUEUES; lia).
  split; [exact H1 |].
  exact (proj1 (proj2 (proj2 (removeTaskFromQueues_filters _ 7 H1)))).
Defined.

Lemma on_time_deadline_order_witness :
  (5 < deadline task5)%Z /\ (5 < deadline task9)%Z /\ status task5 = status task9 /\
  int_range (deadline task5 - 5) /\ int_range (deadline task9 - 5) /\
  ltb (score task5 5) (score task9 5) = (deadline task5 <? deadline task9)%Z.
Proof.
  assert (5 < deadline task5)%Z as H1 by (cbn; lia).
  assert (5 < deadline task9)%Z as H2 by (cbn; lia).
  assert (status task5 = status task9) as H3 by reflexivity.
  assert (int_range (deadline task5 - 5)) as H4
    by (unfold int_range, INT_MIN, INT_MAX; cbn; lia).
  assert (int_range (deadline task9 - 5)) as H5
    by (unfold int_range, INT_MIN, INT_MAX; cbn; lia).
  split; [exact H1 | split; [exact H2 | split; [exact H3 | split; [exact H4 |
    split; [exact H5 |]]]]].
  exact (on_time_deadline_order 5 task5 task9 H1 H2 H3 H4 H5).
Defined.

Lemma boosted_vs_regular_witness :
  (0 < deadline io_ended)%Z /\ (0 < deadline worker)%Z /\
  status io_ended = Status.kIoEnd /\ status worker = Status.kNormal /\
  int_range (deadline io_ended - 0) /\ int_range (deadline worker - 0) /\
  ltb (score io_ended 0) (score worker 0)
  = (2 * (deadline io_ended - 0) <? 5 * (deadline worker - 0))%Z.
Proof.
  assert (0 < deadline io_ended)%Z as H1 by (cbn; lia).
  assert (0 < deadline worker)%Z as H2 by (cbn; lia).
  assert (status io_ended = Status.kIoEnd) as H3 by reflexivity.
  assert (status worker = Status.kNormal) as H4 by reflexivity.
  assert (int_range (deadline io_ended - 0)) as H5
    by (unfold int_range, INT_MIN, INT_MAX; cbn; lia).
  assert (int_range (deadline worker - 0)) as H6
    by (unfold int_range, INT_MIN, INT_MAX; cbn; lia).
  split; [exact H1 | split; [exact H2 | split; [exact H3 | split; [exact H4 |
    split; [exact H5 | split; [exact H6 |]]]]]].
  exact (proj1 (boosted_vs_regular 0 io_ended worker H1 H2 H3 H4 H5 H6)).
Defined.

Lemma finish_of_only_task_witness :
  wf_state initial_state /\ type finish_worker = EventType.kTaskFinish /\
  (forall x, x ∈ queued_ids (g_cpuTaskQueues (fold_events initial_state [arrival_worker])) ->
             x = taskId (task finish_worker)) /\
  cpuTask (policy ([arrival_worker] ++ [finish_worker]) 1 0 initial_state).1 = 1%Z.
Proof.
  assert (type finish_worker = EventType.kTaskFinish) as H2 by reflexivity.
  assert (forall x, x ∈ queued_ids (g_cpuTaskQueues (fold_events initial_state [arrival_worker])) ->
                    x = taskId (task finish_worker)) as H3.
  { cbn. intros x Hx. apply list_elem_of_singleton in Hx. exact Hx. }
  split; [exact initial_state_wf | split; [exact H2 | split; [exact H3 |]]].
  exact (proj1 (finish_of_only_task [arrival_worker] finish_worker 1 0 initial_state
                  initial_state_wf H2 H3)).
Defined.

Lemma timer_batch_sets_clock_witness :
  (forall ev, ev ∈ [tick] -> type ev = EventType.kTimer) /\
  policy [tick] 0 0 example_state
  = policy [] 0 0 (mkState (g_currentTime (fold_events example_state [tick]))
                           (g_cpuTaskQueues example_state) (g_ioTaskQueues example_state)).
Proof.
  assert (forall ev, ev ∈ [tick] -> type ev = EventType.kTimer) as H1.
  { intros ev Hev. apply list_elem_of_singleton in Hev. by rewrite Hev. }
  split; [exact H1 |]. exact (timer_batch_sets_clock [tick] 0 0 example_state H1).
Defined.

End MoreInstances.
